(** * The Hack assembler of projects/06/Assembler.py

    A shallow embedding of the two-pass assembler and the proofs of its
    specification.

    Conventions of the model.
    - A Python [str] is a [string]; a character is a code point below
      256, and text with a character above 255 is outside the model.
    - A Python [int] that holds an address is an [N] (addresses are never
      negative and Python integers are unbounded).
    - A [dict] with string keys is a [gmap string _].
    - An uncaught Python exception is a value of [exn]; code that can
      raise lives in the [result] monad.
    - The [Parser] cursor ([command_index], [current_command]) together
      with the loop [while has_more_commands(): advance()] is the
      recursion over the list of commands; a method that reads
      [self.current_command] takes that command as its argument.
    - The output file is the list of the strings [bincode] written, each
      of which the program writes followed by a newline.
    - The handling of the command line and the opening and closing of
      the two files are outside the model: [main] starts from the lines
      read from the input file. *)

From Stdlib Require Import NArith Ascii String.
From stdpp Require Import gmap strings list fin_maps.

Local Open Scope N_scope.

(** ** Exceptions *)

Inductive exn : Type :=
| IndexError
| KeyError (key : string)
| ValueError (literal : string)
| TypeError.

Inductive result (A : Type) : Type :=
| Ok (a : A)
| Raise (e : exn).
Arguments Ok {A} a.
Arguments Raise {A} e.

#[global] Instance result_ret : MRet result := fun A a => Ok a.
#[global] Instance result_bind : MBind result := fun A B k m =>
  match m with
  | Ok a => k a
  | Raise e => Raise e
  end.

(** ** The Python built-ins the program uses *)

Module Py.

(** [c.isspace()] on a code point below 256. *)
Definition isspace (c : ascii) : bool :=
  let n := N_of_ascii c in
  ((9 <=? n) && (n <=? 13)) || ((28 <=? n) && (n <=? 32))
  || (n =? 133) || (n =? 160).

(** The ASCII digits. *)
Definition is_ascii_digit (c : ascii) : bool :=
  let n := N_of_ascii c in (48 <=? n) && (n <=? 57).

(** [c.isdigit()] on a code point below 256: the ASCII digits and the
    superscripts two, three and one. *)
Definition isdigit_chr (c : ascii) : bool :=
  let n := N_of_ascii c in
  is_ascii_digit c || (n =? 178) || (n =? 179) || (n =? 185).

Fixpoint forallb_str (p : ascii -> bool) (s : string) : bool :=
  match s with
  | EmptyString => true
  | String c t => p c && forallb_str p t
  end.

(** [s.isdigit()]: not empty and every character a digit. *)
Definition isdigit (s : string) : bool :=
  match s with
  | EmptyString => false
  | String _ _ => forallb_str isdigit_chr s
  end.

Definition digit_value (c : ascii) : N := N_of_ascii c - 48.

Fixpoint int_digits (acc : N) (s : string) : N :=
  match s with
  | EmptyString => acc
  | String c t => int_digits (10 * acc + digit_value c) t
  end.

(** The greatest number of digit characters [int] converts
    ([sys.get_int_max_str_digits()] as CPython sets it). *)
Definition int_max_str_digits : N := 4300.

(** [int(s)] for a string on which [isdigit] holds: a [ValueError] for
    the superscript digits and for a string of more than
    [int_max_str_digits] characters, leading zeros counted; the decimal
    value otherwise. *)
Definition int (s : string) : result N :=
  if forallb_str is_ascii_digit s
  then
    if int_max_str_digits <? N.of_nat (String.length s)
    then Raise (ValueError s)
    else Ok (int_digits 0 s)
  else Raise (ValueError s).

Fixpoint pos_bits (p : positive) (low : string) : string :=
  match p with
  | xH => String "1" low
  | xO q => pos_bits q (String "0" low)
  | xI q => pos_bits q (String "1" low)
  end.

(** [str(bin(n))[2:]] for [n >= 0]: the binary digits of [n], most
    significant first, a single 0 for zero. *)
Definition bin (n : N) : string :=
  match n with
  | N0 => "0"
  | Npos p => pos_bits p EmptyString
  end.

Fixpoint replicate_chr (k : nat) (c : ascii) : string :=
  match k with
  | O => EmptyString
  | S k' => String c (replicate_chr k' c)
  end.

(** [s.rjust(width, fill)]. *)
Definition rjust (width : nat) (fill : ascii) (s : string) : string :=
  replicate_chr (width - String.length s) fill +:+ s.

(** [sub in s] for strings. *)
Fixpoint str_in (sub s : string) : bool :=
  String.prefix sub s ||
  match s with
  | EmptyString => false
  | String _ t => str_in sub t
  end.

Definition cons_head (c : ascii) (fields : list string) : list string :=
  match fields with
  | [] => [String c EmptyString]
  | f :: fs => String c f :: fs
  end.

(** [s.split(sep)] scans from the left; [skip] counts the characters of
    a separator just matched that are still to be passed over. *)
Fixpoint split_from (sep : string) (skip : nat) (s : string) : list string :=
  match s with
  | EmptyString => [EmptyString]
  | String c t =>
      match skip with
      | S k => split_from sep k t
      | O =>
          if String.prefix sep s
          then EmptyString :: split_from sep (String.length sep - 1) t
          else cons_head c (split_from sep 0 t)
      end
  end.

(** [s.split(sep)] for a separator that is not empty. *)
Definition split (sep s : string) : list string := split_from sep 0 s.

(** The fields of [s.split()] joined with nothing between them: the
    string without its whitespace. *)
Fixpoint join_split (s : string) : string :=
  match s with
  | EmptyString => EmptyString
  | String c t => if isspace c then join_split t else String c (join_split t)
  end.

(** [l[i]] for [i >= 0]. *)
Definition index {A} (l : list A) (i : nat) : result A :=
  match l !! i with
  | Some x => Ok x
  | None => Raise IndexError
  end.

(** [s[0]]. *)
Definition first_chr (s : string) : result ascii :=
  match s with
  | EmptyString => Raise IndexError
  | String c _ => Ok c
  end.

(** [s[1:]]. *)
Definition slice_1 (s : string) : string :=
  match s with
  | EmptyString => EmptyString
  | String _ t => t
  end.

Fixpoint drop_last (s : string) : string :=
  match s with
  | EmptyString => EmptyString
  | String c EmptyString => EmptyString
  | String c t => String c (drop_last t)
  end.

(** [s[1:-1]]. *)
Definition slice_1_m1 (s : string) : string := drop_last (slice_1 s).

End Py.

(** ** The program *)

Inductive command_kind : Type := A_COMMAND | C_COMMAND | L_COMMAND.

(** [==] on the three constants. *)
Definition kind_eqb (a b : command_kind) : bool :=
  match a, b with
  | A_COMMAND, A_COMMAND | C_COMMAND, C_COMMAND | L_COMMAND, L_COMMAND => true
  | _, _ => false
  end.

Definition predefined_variable_symbols : gmap string N :=
  list_to_map
    [ ("SP", 0); ("LCL", 1); ("ARG", 2); ("THIS", 3); ("THAT", 4);
      ("R0", 0); ("R1", 1); ("R2", 2); ("R3", 3); ("R4", 4); ("R5", 5);
      ("R6", 6); ("R7", 7); ("R8", 8); ("R9", 9); ("R10", 10);
      ("R11", 11); ("R12", 12); ("R13", 13); ("R14", 14); ("R15", 15);
      ("SCREEN", 16384); ("KBD", 24576) ].

Module Parser.

(** The body of the loop of [__init__] over the lines of the file. *)
Fixpoint init_loop (lines commands : list string) : result (list string) :=
  match lines with
  | [] => Ok commands
  | line :: rest =>
      let line := Py.join_split line in
      line ← Py.index (Py.split "//" line) 0;
      if (0 <? String.length line)%nat
      then init_loop rest (commands ++ [line])
      else init_loop rest commands
  end.

(** [Parser(infile_name).commands], from the lines read. *)
Definition init (lines : list string) : result (list string) :=
  init_loop lines [].

Definition command_type (current_command : string) : result command_kind :=
  c ← Py.first_chr current_command;
  if Ascii.eqb c "@" then Ok A_COMMAND
  else if Ascii.eqb c "(" then Ok L_COMMAND
  else Ok C_COMMAND.

Definition symbol (current_command : string) : result string :=
  k ← command_type current_command;
  if kind_eqb k A_COMMAND
  then Ok (Py.slice_1 current_command)
  else Ok (Py.slice_1_m1 current_command).

Definition dest (current_command : string) : result (option string) :=
  if Py.str_in "=" current_command
  then d ← Py.index (Py.split "=" current_command) 0; Ok (Some d)
  else Ok None.

Definition comp (current_command : string) : result string :=
  if Py.str_in "=" current_command && Py.str_in ";" current_command
  then tmp ← Py.index (Py.split "=" current_command) 1;
       Py.index (Py.split ";" tmp) 0
  else if Py.str_in "=" current_command
  then Py.index (Py.split "=" current_command) 1
  else Py.index (Py.split ";" current_command) 0.

Definition jump (current_command : string) : result (option string) :=
  if Py.str_in ";" current_command
  then j ← Py.index (Py.split ";" current_command) 1; Ok (Some j)
  else Ok None.

End Parser.

Module Code.

Definition dest_table : gmap string string :=
  list_to_map
    [ ("null", "000"); ("M", "001"); ("D", "010"); ("MD", "011");
      ("A", "100"); ("AM", "101"); ("AD", "110"); ("AMD", "111") ].

Definition comp_table_entries : list (string * string) :=
  [ ("0", "0101010"); ("1", "0111111"); ("-1", "0111010");
    ("D", "0001100"); ("A", "0110000"); ("!D", "0001101");
    ("!A", "0110001"); ("-D", "0001111"); ("-A", "0110011");
    ("D+1", "0011111"); ("A+1", "0110111"); ("D-1", "0001110");
    ("A-1", "0110010"); ("D+A", "0000010"); ("D-A", "0010011");
    ("A-D", "0000111"); ("D&A", "0000000"); ("D|A", "0010101");
    ("M", "1110000"); ("!M", "1110001"); ("-M", "1110011");
    ("M+1", "1110111"); ("M-1", "1110010"); ("D+M", "1000010");
    ("D-M", "1010011"); ("M-D", "1000111"); ("D&M", "1000000");
    ("D|M", "1010101") ].

Definition comp_table : gmap string string := list_to_map comp_table_entries.

Definition jump_table : gmap string string :=
  list_to_map
    [ ("null", "000"); ("JGT", "001"); ("JEQ", "010"); ("JGE", "011");
      ("JLT", "100"); ("JNE", "101"); ("JLE", "110"); ("JMP", "111") ].

(** [table[key]]. *)
Definition getitem (table : gmap string string) (key : string) : result string :=
  match table !! key with
  | Some code => Ok code
  | None => Raise (KeyError key)
  end.

Definition dest (mnemonic : option string) : result string :=
  let mnemonic := default "null" mnemonic in
  getitem dest_table mnemonic.

Definition comp (mnemonic : string) : result string :=
  getitem comp_table mnemonic.

Definition jump (mnemonic : option string) : result string :=
  let mnemonic := default "null" mnemonic in
  getitem jump_table mnemonic.

End Code.

Module SymbolTable.

Definition init : gmap string N := ∅.

Definition contains (symbol_table : gmap string N) (symbol : string) : bool :=
  bool_decide (is_Some (symbol_table !! symbol)).

Definition add_entry (symbol : string) (address : N)
    (symbol_table : gmap string N) : gmap string N :=
  if negb (contains symbol_table symbol)
  then <[symbol := address]> symbol_table
  else symbol_table.

(** [None] is Python's [None]. *)
Definition get_address (symbol_table : gmap string N) (symbol : string) : option N :=
  if contains symbol_table symbol then symbol_table !! symbol else None.

End SymbolTable.

(** The state of the second pass: the symbol table, the next free RAM
    address and the lines written to the output file so far. *)
Record state : Type := State {
  symbol_table : gmap string N;
  ram_address : N;
  binprog : list string
}.

(** A value is true in a condition unless it is [None] or the empty
    string. *)
Definition truthy (v : option string) : bool :=
  match v with
  | Some (String _ _) => true
  | _ => false
  end.

(** The first pass: the loop of lines 73 to 79. *)
Fixpoint first_pass (commands : list string) (symbol_table : gmap string N)
    (rom_address : N) : result (gmap string N * N) :=
  match commands with
  | [] => Ok (symbol_table, rom_address)
  | current_command :: rest =>
      k ← Parser.command_type current_command;
      if kind_eqb k L_COMMAND
      then
        symbol ← Parser.symbol current_command;
        first_pass rest (SymbolTable.add_entry symbol rom_address symbol_table)
          rom_address
      else first_pass rest symbol_table (rom_address + 1)
  end.

(** [int(symbol)] at line 130 when [symbol] was replaced by the value of
    [get_address]: an integer is returned as it is, [None] is a
    [TypeError]. *)
Definition int_of_address (address : option N) : result N :=
  match address with
  | Some a => Ok a
  | None => Raise TypeError
  end.

(** Lines 117 to 128 and the conversion of line 130: the address of an
    A-command, with the table and the RAM counter it leaves. *)
Definition resolve (symbol : string) (symbol_table : gmap string N)
    (ram_address : N) : result (N * gmap string N * N) :=
  if negb (Py.isdigit symbol)
  then
    if SymbolTable.contains symbol_table symbol
    then
      a ← int_of_address (SymbolTable.get_address symbol_table symbol);
      Ok (a, symbol_table, ram_address)
    else
      let '(address, ram_address) :=
        match predefined_variable_symbols !! symbol with
        | Some address => (address, ram_address)
        | None => (ram_address, ram_address + 1)
        end in
      let symbol_table := SymbolTable.add_entry symbol address symbol_table in
      a ← int_of_address (SymbolTable.get_address symbol_table symbol);
      Ok (a, symbol_table, ram_address)
  else
    a ← Py.int symbol;
    Ok (a, symbol_table, ram_address).

(** Lines 129 to 131. *)
Definition a_bincode (address : N) : string :=
  let bincode := "0" in
  let bincode := bincode +:+ Py.bin address in
  Py.rjust 16 "0" bincode.

(** Lines 133 to 142. *)
Definition c_bincode (current_command : string) : result string :=
  let bincode := "111" in
  m ← Parser.comp current_command;
  c ← Code.comp m;
  let bincode := bincode +:+ c in
  d ← Parser.dest current_command;
  dbits ← (if truthy d
           then d' ← Parser.dest current_command; Code.dest d'
           else Ok "000");
  let bincode := bincode +:+ dbits in
  j ← Parser.jump current_command;
  jbits ← (if truthy j
           then j' ← Parser.jump current_command; Code.jump j'
           else Ok "000");
  let bincode := bincode +:+ jbits in
  Ok bincode.

(** The body of the loop of the second pass, lines 109 to 145. *)
Definition translate (st : state) (current_command : string) : result state :=
  command_type ← Parser.command_type current_command;
  if negb (kind_eqb command_type L_COMMAND)
  then
    if kind_eqb command_type A_COMMAND
    then
      symbol ← Parser.symbol current_command;
      '(address, table, ram) ←
        resolve symbol (symbol_table st) (ram_address st);
      Ok (State table ram (binprog st ++ [a_bincode address]))
    else
      bincode ← c_bincode current_command;
      Ok (State (symbol_table st) (ram_address st) (binprog st ++ [bincode]))
  else Ok st.

(** The second pass: the loop of lines 108 to 145.  An exception leaves
    the loop with the state reached before the command that raised. *)
Fixpoint second_pass (st : state) (commands : list string) : state * option exn :=
  match commands with
  | [] => (st, None)
  | current_command :: rest =>
      match translate st current_command with
      | Ok st' => second_pass st' rest
      | Raise e => (st, Some e)
      end
  end.

(** The two passes of [main] over the commands of the parser: the lines
    written and the exception that ended the run, if any. *)
Definition assemble (commands : list string) : list string * option exn :=
  match first_pass commands SymbolTable.init 0 with
  | Raise e => ([], Some e)
  | Ok (symbol_table, _) =>
      let '(st, e) := second_pass (State symbol_table 16 []) commands in
      (binprog st, e)
  end.

(** [main], from the lines of the input file. *)
Definition main (lines : list string) : list string * option exn :=
  match Parser.init lines with
  | Raise e => ([], Some e)
  | Ok commands => assemble commands
  end.

(** ** Notions used to state the specification *)

(** The command declares a label. *)
Definition is_label (cmd : string) : bool :=
  match Parser.command_type cmd with
  | Ok L_COMMAND => true
  | _ => false
  end.

(** The name a label command declares. *)
Definition label_name (cmd : string) : option string :=
  if is_label cmd
  then match Parser.symbol cmd with Ok s => Some s | Raise _ => None end
  else None.

(** The number of address and computation commands of a list: the
    instruction-memory address of a command is the number of address and
    computation commands before it. *)
Fixpoint rom_count (cmds : list string) : N :=
  match cmds with
  | [] => 0
  | c :: rest => (if is_label c then 0 else 1) + rom_count rest
  end.

(** The address command with the given symbol. *)
Definition address_command (symbol : string) : string := String "@" symbol.

(** The symbol of an address command that the second pass takes for a
    new variable: not a literal, not in the table the first pass left,
    not predefined. *)
Definition variable_of (labels : gmap string N) (cmd : string) : option string :=
  match Parser.command_type cmd, Parser.symbol cmd with
  | Ok A_COMMAND, Ok s =>
      if negb (Py.isdigit s) && bool_decide (labels !! s = None)
         && bool_decide (predefined_variable_symbols !! s = None)
      then Some s else None
  | _, _ => None
  end.

Definition note_variable (labels : gmap string N) (seen : list string)
    (cmd : string) : list string :=
  match variable_of labels cmd with
  | Some s => if bool_decide (s ∈ seen) then seen else seen ++ [s]
  | None => seen
  end.

(** The new variables of a list of commands, each once, in the order in
    which they first appear. *)
Definition new_variables (labels : gmap string N) (cmds : list string) : list string :=
  foldl (note_variable labels) [] cmds.

(** The position of a string in a list. *)
Fixpoint position (s : string) (l : list string) : option nat :=
  match l with
  | [] => None
  | x :: r => if decide (x = s) then Some O else S <$> position s r
  end.

Definition is_bit (c : ascii) : bool := Ascii.eqb c "0" || Ascii.eqb c "1".

(** The number a string of binary digits denotes. *)
Fixpoint bin_value_from (acc : N) (w : string) : N :=
  match w with
  | EmptyString => acc
  | String c t => bin_value_from (2 * acc + (if Ascii.eqb c "1" then 1 else 0)) t
  end.

Definition bin_value (w : string) : N := bin_value_from 0 w.

(** The position of the first occurrence of a character. *)
Fixpoint index_of (c : ascii) (s : string) : option nat :=
  match s with
  | EmptyString => None
  | String x t => if Ascii.eqb x c then Some O else S <$> index_of c t
  end.

(** The number of occurrences of a character. *)
Fixpoint count_chr (c : ascii) (s : string) : nat :=
  match s with
  | EmptyString => O
  | String x t => ((if Ascii.eqb x c then 1 else 0) + count_chr c t)%nat
  end.

(** [s[i:j]] for [0 <= i] and [0 <= j]. *)
Definition slice (i j : nat) (s : string) : string := String.substring i (j - i) s.

(** The decomposition rule for the computation part as the
    specification words it: between the first [=] and the first [;] when
    both occur, after the first [=] when only [=] occurs, before the
    first [;] when only [;] occurs, the whole command otherwise. *)
Definition computation_rule (cmd : string) : string :=
  match index_of "=" cmd, index_of ";" cmd with
  | Some i, Some j => slice (S i) j cmd
  | Some i, None => slice (S i) (String.length cmd) cmd
  | None, Some j => slice 0 j cmd
  | None, None => cmd
  end.

(** What [Parser.comp] computes on every command: the second of the
    fields that [=] separates, or the whole command when there is no
    [=], cut at its first [;]. *)
Definition computation_field (cmd : string) : string :=
  let field :=
    match index_of "=" cmd with
    | Some i =>
        let rest := slice (S i) (String.length cmd) cmd in
        match index_of "=" rest with
        | Some k => slice 0 k rest
        | None => rest
        end
    | None => cmd
    end in
  match index_of ";" field with
  | Some j => slice 0 j field
  | None => field
  end.

(** A run of insertions, as [add_entry] performs them one after another. *)
Definition add_entries (entries : list (string * N)) (t : gmap string N) : gmap string N :=
  foldl (fun t e => SymbolTable.add_entry e.1 e.2 t) t entries.

(** The address the first pass gives to a name: the instruction-memory
    address at the first label command that declares it, counting from
    [rom_address]. *)
Fixpoint label_address (cmds : list string) (s : string) (rom_address : N) : option N :=
  match cmds with
  | [] => None
  | c :: rest =>
      if is_label c
      then if decide (label_name c = Some s) then Some rom_address
           else label_address rest s rom_address
      else label_address rest s (rom_address + 1)
  end.

(** What the second pass has established after a prefix of the
    commands, [labels] being the table the first pass left and [seen]
    the new variables met so far: the RAM counter is 16 plus their
    number, the entries of the first pass stand, a predefined name is
    absent or at its fixed address, and any other name is in the table
    exactly when it is a variable met so far, at 16 plus its rank. *)
Record second_pass_inv (labels : gmap string N) (seen : list string) (st : state) : Prop := {
  inv_ram : ram_address st = 16 + N.of_nat (length seen);
  inv_labels : forall s a, labels !! s = Some a -> symbol_table st !! s = Some a;
  inv_predefined : forall s a,
    labels !! s = None -> predefined_variable_symbols !! s = Some a ->
    symbol_table st !! s = None \/ symbol_table st !! s = Some a;
  inv_variables : forall s,
    labels !! s = None -> predefined_variable_symbols !! s = None ->
    symbol_table st !! s = (fun k => 16 + N.of_nat k) <$> position s seen
}.

(** ** The cursor of the parser *)

Module Cursor.

(** The fields of a [Parser] object. *)
Record parser : Type := Parser {
  commands : list string;
  command_index : nat;
  current_command : option string
}.

(** The state [__init__] leaves, and the state lines 104 and 105 of
    [main] restore before the second pass. *)
Definition rewind (p : parser) : parser := Parser (commands p) 0 None.

Definition has_more_commands (p : parser) : bool :=
  (command_index p <? length (commands p))%nat.

Definition advance (p : parser) : result parser :=
  c ← Py.index (commands p) (command_index p);
  Ok (Parser (commands p) (S (command_index p)) (Some c)).

(** [self.current_command] as the methods read it: subscripting [None]
    is a [TypeError]. *)
Definition current (p : parser) : result string :=
  match current_command p with
  | Some c => Ok c
  | None => Raise TypeError
  end.

(** [while p.has_more_commands(): p.advance(); body], the body reading
    the current command.  The fuel bounds the number of rounds; [None]
    means that it ran out. *)
Fixpoint while_more {S : Type} (fuel : nat) (body : string -> S -> result S)
    (p : parser) (s : S) : option (result (parser * S)) :=
  if has_more_commands p
  then match fuel with
       | O => None
       | Datatypes.S fuel' =>
           match advance p with
           | Raise e => Some (Raise e)
           | Ok p' =>
               match c ← current p'; body c s with
               | Raise e => Some (Raise e)
               | Ok s' => while_more fuel' body p' s'
               end
           end
       end
  else Some (Ok (p, s)).

End Cursor.

(** The body of the loop of the first pass, lines 76 to 79, on the
    table and the ROM counter. *)
Definition first_pass_body (current_command : string) (s : gmap string N * N)
    : result (gmap string N * N) :=
  k ← Parser.command_type current_command;
  if kind_eqb k L_COMMAND
  then
    symbol ← Parser.symbol current_command;
    Ok (SymbolTable.add_entry symbol s.2 s.1, s.2)
  else Ok (s.1, s.2 + 1).

(** ** Further notions used to state properties *)

(** A loop body run over a list of commands in order, stopping at the
    first exception. *)
Fixpoint for_each {S : Type} (body : string -> S -> result S)
    (cmds : list string) (s : S) : result S :=
  match cmds with
  | [] => Ok s
  | c :: rest => s' ← body c s; for_each body rest s'
  end.

(** The text before the first occurrence of [sub], all of it when there
    is none. *)
Fixpoint before_sub (sub s : string) : string :=
  match s with
  | EmptyString => EmptyString
  | String c t =>
      if String.prefix sub s then EmptyString else String c (before_sub sub t)
  end.

(** A line without its whitespace and without its comment. *)
Definition clean_line (line : string) : string :=
  before_sub "//" (Py.join_split line).

Definition no_space (s : string) : bool :=
  Py.forallb_str (fun c => negb (Py.isspace c)) s.

(** A string with neither [=] nor [;]. *)
Definition plain (s : string) : Prop :=
  index_of "=" s = None /\ index_of ";" s = None.

(** An optional part with neither [=] nor [;]. *)
Definition plain_opt (o : option string) : Prop :=
  match o with Some s => plain s | None => True end.

(** The text of a computation command from its parts. *)
Definition compose (d : option string) (c : string) (j : option string) : string :=
  match d with Some d' => d' +:+ "=" | None => EmptyString end
  +:+ c +:+
  match j with Some j' => ";" +:+ j' | None => EmptyString end.

(** The code of an optional field: the entry of the table, three zeros
    for a field that is absent. *)
Definition field_code (table : gmap string string) (m : option string) : option string :=
  match m with
  | Some m' => table !! m'
  | None => Some "000"
  end.

(** The superscripts two, three and one: the digits that are not ASCII
    digits among the characters of the model. *)
Definition is_superscript_digit (c : ascii) : bool :=
  let n := N_of_ascii c in (n =? 178) || (n =? 179) || (n =? 185).

(** The string holds a superscript digit. *)
Definition has_superscript_digit (s : string) : bool :=
  negb (Py.forallb_str (fun c => negb (is_superscript_digit c)) s).

(** A command of a program that is written as the language asks: a
    label, an address command whose symbol is a name or a literal of at
    most [Py.int_max_str_digits] ASCII digits, or a computation command
    written from mnemonics of the three tables. *)
Definition well_formed (cmd : string) : Prop :=
  is_label cmd = true \/
  (exists s, cmd = address_command s /\
     (Py.isdigit s = false \/
      Py.forallb_str Py.is_ascii_digit s = true /\
      N.of_nat (String.length s) <= Py.int_max_str_digits)) \/
  (exists d c j dbits cbits jbits,
     cmd = compose d c j /\
     field_code Code.dest_table d = Some dbits /\
     Code.comp_table !! c = Some cbits /\
     field_code Code.jump_table j = Some jbits).

(** ** Facts about the built-ins *)

Section Builtins.

Lemma cons_head_eq c f fs : Py.cons_head c (f :: fs) = String c f :: fs.
Proof. reflexivity. Qed.

Lemma split_from_nonempty sep skip s : Py.split_from sep skip s <> [].
Proof.
  revert skip; induction s as [|c t IH]; intros skip; [done|].
  cbn [Py.split_from]. destruct skip as [|k]; [|apply IH].
  destruct (String.prefix sep (String c t)); [done|].
  specialize (IH O). destruct (Py.split_from sep 0 t); done.
Qed.

Lemma split_head sep s : exists f fs, Py.split sep s = f :: fs.
Proof.
  pose proof (split_from_nonempty sep 0 s) as H. unfold Py.split.
  destruct (Py.split_from sep 0 s) as [|f fs]; [done|eauto].
Qed.

Lemma index_head {A} (x : A) l : Py.index (x :: l) 0 = Ok x.
Proof. reflexivity. Qed.

End Builtins.

(** ** The symbol table *)

Section SymbolTableFacts.

Implicit Types (t : gmap string N) (s k : string) (a v : N).

Lemma contains_true t s : SymbolTable.contains t s = true <-> is_Some (t !! s).
Proof. unfold SymbolTable.contains. apply bool_decide_eq_true. Qed.

Lemma contains_false t s : SymbolTable.contains t s = false <-> t !! s = None.
Proof.
  unfold SymbolTable.contains. rewrite bool_decide_eq_false.
  rewrite eq_None_not_Some. done.
Qed.

Lemma get_address_lookup t s : SymbolTable.get_address t s = t !! s.
Proof.
  unfold SymbolTable.get_address.
  destruct (SymbolTable.contains t s) eqn:E; [done|].
  apply contains_false in E. by rewrite E.
Qed.

Lemma add_entry_present t s a v :
  t !! s = Some v -> SymbolTable.add_entry s a t = t.
Proof.
  intros H. unfold SymbolTable.add_entry.
  assert (SymbolTable.contains t s = true) as ->; [|done].
  apply contains_true. eauto.
Qed.

Lemma add_entry_absent t s a :
  t !! s = None -> SymbolTable.add_entry s a t = <[s := a]> t.
Proof.
  intros H. unfold SymbolTable.add_entry.
  apply contains_false in H. by rewrite H.
Qed.

Lemma add_entry_keeps t s a k v :
  t !! k = Some v -> SymbolTable.add_entry s a t !! k = Some v.
Proof.
  intros H. destruct (t !! s) as [w|] eqn:E.
  - by rewrite (add_entry_present _ _ _ w).
  - rewrite add_entry_absent by done.
    rewrite lookup_insert_ne; [done|]. intros ->. congruence.
Qed.

Lemma add_entry_lookup t s a :
  SymbolTable.add_entry s a t !! s = Some (default a (t !! s)).
Proof.
  destruct (t !! s) as [w|] eqn:E.
  - rewrite (add_entry_present _ _ _ w) by done. by rewrite E.
  - rewrite add_entry_absent by done. by rewrite lookup_insert_eq.
Qed.

Lemma add_entry_other t s a k :
  k <> s -> SymbolTable.add_entry s a t !! k = t !! k.
Proof.
  intros Hne. unfold SymbolTable.add_entry.
  destruct (negb _); [|done]. by rewrite lookup_insert_ne.
Qed.

End SymbolTableFacts.

(** C8. Inserting under a symbol that is already in the table leaves the
    table as it is, and a key that is in the table keeps the address it
    was first given: [get_address] returns it after one insertion and
    after any run of later insertions, whatever their keys. *)
Theorem add_entry_first_writer_wins (t : gmap string N) (k : string) (v : N) :
  t !! k = Some v ->
  (forall a, SymbolTable.add_entry k a t = t) /\
  (forall s a, SymbolTable.get_address (SymbolTable.add_entry s a t) k = Some v) /\
  (forall entries, SymbolTable.get_address (add_entries entries t) k = Some v).
Proof.
  intros Hk. split; [|split].
  - intros a. by apply add_entry_present with v.
  - intros s a. rewrite get_address_lookup. by apply add_entry_keeps.
  - intros entries. rewrite get_address_lookup.
    revert t Hk. induction entries as [|[s a] es IH]; intros t Hk; [done|].
    cbn. apply IH. by apply add_entry_keeps.
Qed.

Lemma add_entry_first_writer_wins_witness :
  SymbolTable.add_entry "LOOP" 9 (SymbolTable.add_entry "LOOP" 4 SymbolTable.init)
    = SymbolTable.add_entry "LOOP" 4 SymbolTable.init /\
  SymbolTable.get_address
    (add_entries [("END", 7); ("LOOP", 9)]
       (SymbolTable.add_entry "LOOP" 4 SymbolTable.init)) "LOOP" = Some 4.
Proof.
  assert (SymbolTable.add_entry "LOOP" 4 SymbolTable.init !! "LOOP" = Some 4) as H
    by (vm_compute; reflexivity).
  destruct (add_entry_first_writer_wins _ _ _ H) as (H1 & _ & H3).
  split; [apply H1 | apply H3].
Defined.

(** ** The parser *)

Section ParserFacts.

Lemma command_type_total cmd :
  cmd <> EmptyString -> exists k, Parser.command_type cmd = Ok k.
Proof.
  destruct cmd as [|c t]; [done|]. intros _. unfold Parser.command_type. cbn.
  destruct (Ascii.eqb c "@"); [eauto|]. destruct (Ascii.eqb c "("); eauto.
Qed.

Lemma command_type_nonempty cmd k : Parser.command_type cmd = Ok k -> cmd <> EmptyString.
Proof. by destruct cmd. Qed.

Lemma command_type_address s :
  Parser.command_type (address_command s) = Ok A_COMMAND.
Proof. reflexivity. Qed.

Lemma symbol_address s : Parser.symbol (address_command s) = Ok s.
Proof. reflexivity. Qed.

Lemma symbol_total cmd k :
  Parser.command_type cmd = Ok k -> exists s, Parser.symbol cmd = Ok s.
Proof.
  intros H. unfold Parser.symbol. rewrite H. cbn.
  destruct (kind_eqb k A_COMMAND); eauto.
Qed.

Lemma is_label_true cmd : is_label cmd = true <-> Parser.command_type cmd = Ok L_COMMAND.
Proof.
  unfold is_label. destruct (Parser.command_type cmd) as [[]|]; split; congruence.
Qed.

Lemma label_name_Some cmd s :
  label_name cmd = Some s <->
  Parser.command_type cmd = Ok L_COMMAND /\ Parser.symbol cmd = Ok s.
Proof.
  unfold label_name. destruct (is_label cmd) eqn:E.
  - apply is_label_true in E. destruct (Parser.symbol cmd); split.
    + intros [= ->]. done.
    + intros [_ [= ->]]. done.
    + done.
    + intros [_ ?]. done.
  - split; [done|]. intros [H _]. apply is_label_true in H. congruence.
Qed.

(** The commands of the parser are never empty. *)
Lemma init_loop_nonempty lines : forall acc,
  Forall (fun c => c <> EmptyString) acc ->
  exists cmds, Parser.init_loop lines acc = Ok cmds /\ Forall (fun c => c <> EmptyString) cmds.
Proof.
  induction lines as [|l ls IH]; intros acc Hacc; cbn [Parser.init_loop].
  - eauto.
  - destruct (split_head "//" (Py.join_split l)) as (f & fs & ->).
    rewrite index_head. cbn [mbind result_bind].
    destruct f as [|c f]; cbn [String.length Nat.ltb Nat.leb]; [by apply IH|].
    apply IH. apply Forall_app. split; [done|]. by constructor.
Qed.

Lemma init_nonempty lines :
  exists cmds, Parser.init lines = Ok cmds /\ Forall (fun c => c <> EmptyString) cmds.
Proof. apply init_loop_nonempty. constructor. Qed.

End ParserFacts.

(** ** The first pass *)

Section FirstPass.

Lemma rom_count_app l1 l2 : rom_count (l1 ++ l2) = rom_count l1 + rom_count l2.
Proof. induction l1 as [|c l IH]; cbn; [done|]. rewrite IH. lia. Qed.

Lemma first_pass_spec cmds : forall t r,
  Forall (fun c => c <> EmptyString) cmds ->
  exists t',
    first_pass cmds t r = Ok (t', r + rom_count cmds) /\
    forall s, t' !! s =
              match t !! s with
              | Some a => Some a
              | None => label_address cmds s r
              end.
Proof.
  induction cmds as [|c cmds IH]; intros t r Hne.
  - exists t. cbn. split; [f_equal; f_equal; lia|].
    intros s. by destruct (t !! s).
  - apply Forall_cons in Hne as [Hc Hne].
    destruct (command_type_total c Hc) as [k Hk].
    cbn [first_pass rom_count label_address]. rewrite Hk. cbn [mbind result_bind].
    destruct (kind_eqb k L_COMMAND) eqn:Hk'.
    + assert (k = L_COMMAND) as -> by by destruct k.
      destruct (symbol_total _ _ Hk) as [s0 Hs0]. rewrite Hs0. cbn [mbind result_bind].
      assert (is_label c = true) as Hl by by apply is_label_true.
      assert (label_name c = Some s0) as Hn by by apply label_name_Some.
      rewrite Hl, Hn.
      destruct (IH (SymbolTable.add_entry s0 r t) r Hne) as (t' & Ht' & Hlook).
      exists t'. split; [rewrite Ht'; f_equal; f_equal; lia|].
      intros s. rewrite Hlook. destruct (decide (Some s0 = Some s)) as [[= ->]|Hd].
      * rewrite add_entry_lookup. by destruct (t !! s).
      * rewrite add_entry_other by congruence. done.
    + assert (is_label c = false) as Hl.
      { destruct (is_label c) eqn:E; [|done]. apply is_label_true in E.
        rewrite E in Hk. injection Hk as <-. done. }
      rewrite Hl.
      destruct (IH t (r + 1) Hne) as (t' & Ht' & Hlook).
      exists t'. split; [rewrite Ht'; f_equal; f_equal; lia|]. done.
Qed.

Lemma label_address_first cmds : forall r i c s,
  cmds !! i = Some c ->
  label_name c = Some s ->
  (forall i' c', (i' < i)%nat -> cmds !! i' = Some c' -> label_name c' <> Some s) ->
  label_address cmds s r = Some (r + rom_count (take i cmds)).
Proof.
  induction cmds as [|c0 cmds IH]; intros r i c s Hi Hn Hfirst; [done|].
  assert (is_label c = true) as Hl.
  { apply label_name_Some in Hn as [Hn _]. by apply is_label_true. }
  destruct i as [|i]; cbn in Hi.
  - injection Hi as ->. cbn. rewrite Hl.
    rewrite decide_True by done. f_equal. lia.
  - cbn [label_address take rom_count].
    assert (label_name c0 <> Some s) as Hc0 by (apply (Hfirst O); [lia|done]).
    assert (label_address cmds s (r + (if is_label c0 then 0 else 1))
            = Some (r + (if is_label c0 then 0 else 1) + rom_count (take i cmds))) as H.
    { apply IH with c; [done..|]. intros i' c' Hlt Hc'. apply (Hfirst (S i')); [lia|done]. }
    destruct (is_label c0).
    + rewrite decide_False by done. replace (r + 0) with r in H by lia.
      rewrite H. f_equal; lia.
    + rewrite H. f_equal; lia.
Qed.

Lemma label_address_None cmds : forall r s,
  (forall c, c ∈ cmds -> label_name c <> Some s) ->
  label_address cmds s r = None.
Proof.
  induction cmds as [|c0 cmds IH]; intros r s H; [done|]. cbn.
  assert (label_name c0 <> Some s) by (apply H; left).
  assert (forall r, label_address cmds s r = None) as H'.
  { intros r'. apply IH. intros c Hc. apply H. by right. }
  destruct (is_label c0); [rewrite decide_False by done|]; apply H'.
Qed.

Lemma rom_count_take_labels cmds : forall j,
  (forall k c, (k < j)%nat -> cmds !! k = Some c -> is_label c = true) ->
  rom_count (take j cmds) = 0.
Proof.
  induction cmds as [|c0 cmds IH]; intros [|j] H; try done.
  cbn. rewrite (H O c0) by (done || lia). rewrite IH; [done|].
  intros k c Hk Hc. apply (H (S k)); [lia|done].
Qed.

Lemma rom_count_labels cmds : forall i j,
  (i <= j)%nat ->
  (forall k c, (i <= k < j)%nat -> cmds !! k = Some c -> is_label c = true) ->
  rom_count (take j cmds) = rom_count (take i cmds).
Proof.
  induction cmds as [|c0 cmds IH]; intros i j Hij H.
  - by rewrite !take_nil.
  - destruct i as [|i].
    + cbn [take rom_count]. apply rom_count_take_labels.
      intros k c Hk. apply H. lia.
    + destruct j as [|j]; [lia|]. cbn [take rom_count]. f_equal.
      apply IH; [lia|]. intros k c Hk Hc. apply (H (S k)); [lia|done].
Qed.

Lemma first_pass_Ok cmds : forall t r t' n,
  first_pass cmds t r = Ok (t', n) -> Forall (fun c => c <> EmptyString) cmds.
Proof.
  induction cmds as [|c cmds IH]; intros t r t' n H; [constructor|].
  cbn [first_pass] in H.
  destruct (Parser.command_type c) as [k|] eqn:Hk; cbn [mbind result_bind] in H; [|done].
  constructor; [by eapply command_type_nonempty|].
  destruct (kind_eqb k L_COMMAND).
  - destruct (Parser.symbol c); cbn [mbind result_bind] in H; [|done]. by eapply IH.
  - by eapply IH.
Qed.

(** The table the first pass leaves holds, for each name, the address
    at the first label command that declares it. *)
Lemma first_pass_lookup cmds labels n s :
  first_pass cmds SymbolTable.init 0 = Ok (labels, n) ->
  labels !! s = label_address cmds s 0.
Proof.
  intros H. destruct (first_pass_spec cmds SymbolTable.init 0) as (t & Ht & Hlook).
  { by eapply first_pass_Ok. }
  rewrite H in Ht. injection Ht as <- _. rewrite Hlook.
  unfold SymbolTable.init. by rewrite lookup_empty.
Qed.

Lemma first_declaration (cmds : list string) s :
  (exists c, c ∈ cmds /\ label_name c = Some s) ->
  exists i c, cmds !! i = Some c /\ label_name c = Some s /\
    forall i' c', (i' < i)%nat -> cmds !! i' = Some c' -> label_name c' <> Some s.
Proof.
  induction cmds as [|c0 cmds IH]; intros (c & Hc & Hn).
  - by apply elem_of_nil in Hc.
  - destruct (decide (label_name c0 = Some s)) as [H0|H0].
    + exists O, c0. split; [done|]. split; [done|]. intros i' c' Hlt. lia.
    + apply elem_of_cons in Hc as [->|Hc]; [done|].
      destruct IH as (i & c1 & Hi & Hn1 & Hfirst); [eauto|].
      exists (S i), c1. split; [done|]. split; [done|].
      intros [|i'] c' Hlt Hc'; cbn in Hc'.
      * by injection Hc' as <-.
      * apply (Hfirst i'); [lia|done].
Qed.

End FirstPass.

(** ** The second pass, one command *)

Section Translate.

Lemma translate_label st c : is_label c = true -> translate st c = Ok st.
Proof.
  intros H. apply is_label_true in H. unfold translate. rewrite H. reflexivity.
Qed.

Lemma command_type_A cmd :
  Parser.command_type cmd = Ok A_COMMAND -> exists s, cmd = address_command s.
Proof.
  destruct cmd as [|c t]; [done|]. unfold Parser.command_type. cbn.
  destruct (Ascii.eqb c "@") eqn:E.
  - apply Ascii.eqb_eq in E as ->. eauto.
  - destruct (Ascii.eqb c "("); done.
Qed.

Lemma resolve_literal s t r :
  Py.isdigit s = true ->
  resolve s t r = (a ← Py.int s; Ok (a, t, r)).
Proof. intros H. unfold resolve. by rewrite H. Qed.

Lemma resolve_present s t r a :
  Py.isdigit s = false -> t !! s = Some a -> resolve s t r = Ok (a, t, r).
Proof.
  intros Hd Hs. unfold resolve. rewrite Hd. cbn [negb].
  assert (SymbolTable.contains t s = true) as -> by (apply contains_true; eauto).
  by rewrite get_address_lookup, Hs.
Qed.

Lemma resolve_predefined s t r a :
  Py.isdigit s = false -> t !! s = None ->
  predefined_variable_symbols !! s = Some a ->
  resolve s t r = Ok (a, <[s := a]> t, r).
Proof.
  intros Hd Hs Hp. unfold resolve. rewrite Hd. cbn [negb].
  assert (SymbolTable.contains t s = false) as -> by by apply contains_false.
  rewrite Hp. rewrite get_address_lookup, add_entry_absent by done.
  by rewrite lookup_insert_eq.
Qed.

Lemma resolve_variable s t r :
  Py.isdigit s = false -> t !! s = None ->
  predefined_variable_symbols !! s = None ->
  resolve s t r = Ok (r, <[s := r]> t, r + 1).
Proof.
  intros Hd Hs Hp. unfold resolve. rewrite Hd. cbn [negb].
  assert (SymbolTable.contains t s = false) as -> by by apply contains_false.
  rewrite Hp. rewrite get_address_lookup, add_entry_absent by done.
  by rewrite lookup_insert_eq.
Qed.

Lemma translate_address st s :
  translate st (address_command s) =
  ('(a, t, r) ← resolve s (symbol_table st) (ram_address st);
   Ok (State t r (binprog st ++ [a_bincode a]))).
Proof. reflexivity. Qed.

(** What a command that does not raise does to the state. *)
Lemma translate_cases st cmd st' :
  translate st cmd = Ok st' ->
  (is_label cmd = true /\ st' = st) \/
  (Parser.command_type cmd = Ok C_COMMAND /\
   symbol_table st' = symbol_table st /\ ram_address st' = ram_address st) \/
  (exists s a, cmd = address_command s /\
     resolve s (symbol_table st) (ram_address st)
       = Ok (a, symbol_table st', ram_address st') /\
     binprog st' = binprog st ++ [a_bincode a]).
Proof.
  unfold translate. destruct (Parser.command_type cmd) as [[]|] eqn:Hk; cbn.
  - destruct (command_type_A _ Hk) as [s ->]. cbn.
    destruct (resolve s (symbol_table st) (ram_address st)) as [[[a t] r]|] eqn:Hr;
      cbn; [|done].
    intros [= <-]. right; right. exists s, a. done.
  - destruct (c_bincode cmd); cbn; [|done].
    intros [= <-]. right; left. done.
  - intros [= <-]. left. split; [by apply is_label_true|done].
  - done.
Qed.

Lemma predefined_not_literal s a :
  predefined_variable_symbols !! s = Some a -> Py.isdigit s = false.
Proof.
  intros H. apply elem_of_list_to_map_2 in H.
  repeat (apply elem_of_cons in H as [[= -> _]|H]; [reflexivity|]).
  by apply elem_of_nil in H.
Qed.

End Translate.

(** C4 (as amended). A label command emits no word and changes nothing
    in the second pass.  The first pass, whose counter starts at 0 and
    counts the address and computation commands only, cannot fail on the
    commands of the parser, ends with the counter at the number of such
    commands, and maps the name of a label, at the first command that
    declares it, to the instruction-memory address at that command: the
    address of the next command that is not a label, or the number of
    all address and computation commands when only labels follow (take
    [j] the position of that next command, or the length of the list). *)
Theorem first_pass_label_addresses (cmds : list string) :
  Forall (fun c => c <> EmptyString) cmds ->
  (forall st c, is_label c = true -> translate st c = Ok st) /\
  exists t,
    first_pass cmds SymbolTable.init 0 = Ok (t, rom_count cmds) /\
    forall i c s,
      cmds !! i = Some c ->
      label_name c = Some s ->
      (forall i' c', (i' < i)%nat -> cmds !! i' = Some c' -> label_name c' <> Some s) ->
      t !! s = Some (rom_count (take i cmds)) /\
      forall j, (i <= j)%nat ->
        (forall k c', (i <= k < j)%nat -> cmds !! k = Some c' -> is_label c' = true) ->
        t !! s = Some (rom_count (take j cmds)).
Proof.
  intros Hne. split; [apply translate_label|].
  destruct (first_pass_spec cmds SymbolTable.init 0 Hne) as (t & Ht & Hlook).
  exists t. split; [exact Ht|].
  intros i c s Hi Hn Hfirst.
  assert (t !! s = Some (rom_count (take i cmds))) as Hs.
  { rewrite Hlook. unfold SymbolTable.init. rewrite lookup_empty.
    by rewrite (label_address_first cmds 0 i c s). }
  split; [exact Hs|].
  intros j Hij Hlab. rewrite Hs. f_equal. symmetry. by apply rom_count_labels.
Qed.

Lemma first_pass_label_addresses_witness :
  exists t,
    first_pass ["(LOOP)"; "@LOOP"; "0;JMP"; "(END)"] SymbolTable.init 0 = Ok (t, 2) /\
    t !! "LOOP" = Some 0 /\ t !! "END" = Some 2.
Proof.
  destruct (first_pass_label_addresses ["(LOOP)"; "@LOOP"; "0;JMP"; "(END)"])
    as (_ & t & Ht & Hlab).
  { repeat constructor; discriminate. }
  exists t. split; [exact Ht|]. split.
  - refine (proj1 (Hlab 0%nat "(LOOP)" "LOOP" _ _ _)); try reflexivity.
    intros i' c' Hlt. inversion Hlt.
  - refine (proj1 (Hlab 3%nat "(END)" "END" _ _ _)); try reflexivity.
    intros i' c' Hlt Hc'.
    destruct i' as [|[|[|i']]]; cbn in Hc'; try (injection Hc' as <-; vm_compute; discriminate).
    exfalso. clear -Hlt. lia.
Defined.

(** C4, the claim as stated fails for a name declared twice: the second
    declaration of A stands where the instruction counter is 1 and no
    command follows it, yet A stays at 0, the address at its first
    declaration. *)
Lemma duplicate_label_keeps_first_address :
  let cmds := ["(A)"; "@1"; "(A)"] in
  first_pass cmds SymbolTable.init 0 = Ok ({[ "A" := 0 ]}, 1) /\
  cmds !! 2%nat = Some "(A)" /\
  label_name "(A)" = Some "A" /\
  rom_count (take 2 cmds) = 1 /\
  rom_count cmds = 1 /\
  ({[ "A" := 0 ]} : gmap string N) !! "A" = Some 0.
Proof. vm_compute. auto 10. Qed.

(** ** The second pass, the whole loop *)

Section SecondPass.

Lemma position_None s l : position s l = None <-> s ∉ l.
Proof.
  induction l as [|x l IH]; cbn.
  - split; [intros _; apply not_elem_of_nil|done].
  - rewrite not_elem_of_cons. destruct (decide (x = s)) as [->|Hne].
    + split; [done|]. intros [? _]. done.
    + rewrite fmap_None, IH. split; [intros ?; split; congruence|by intros [_ ?]].
Qed.


Lemma position_snoc_new s l : s ∉ l -> position s (l ++ [s]) = Some (length l).
Proof.
  induction l as [|x l IH]; cbn; intros Hs.
  - by rewrite decide_True.
  - apply not_elem_of_cons in Hs as [Hne Hs].
    rewrite decide_False by congruence. by rewrite IH.
Qed.

Lemma position_snoc_other s s' l : s' <> s -> position s' (l ++ [s]) = position s' l.
Proof.
  intros Hne. induction l as [|x l IH]; cbn.
  - by rewrite decide_False by congruence.
  - destruct (decide (x = s')); [done|]. by rewrite IH.
Qed.

Lemma variable_of_address labels s :
  variable_of labels (address_command s) =
  if negb (Py.isdigit s) && bool_decide (labels !! s = None)
     && bool_decide (predefined_variable_symbols !! s = None)
  then Some s else None.
Proof. reflexivity. Qed.

Lemma variable_of_not_address labels cmd :
  Parser.command_type cmd <> Ok A_COMMAND -> variable_of labels cmd = None.
Proof.
  unfold variable_of. destruct (Parser.command_type cmd) as [[]|]; done.
Qed.


Lemma second_pass_inv_init labels out :
  second_pass_inv labels [] (State labels 16 out).
Proof.
  split; cbn; [done|done|by left|done].
Qed.

(** A command that does not raise keeps the invariant, the variables
    met being extended by [note_variable]. *)
Lemma translate_inv labels seen st cmd st' :
  second_pass_inv labels seen st ->
  translate st cmd = Ok st' ->
  second_pass_inv labels (note_variable labels seen cmd) st'.
Proof.
  intros [Hram Hlab Hpre Hvar] Ht.
  destruct (translate_cases _ _ _ Ht) as [[Hl ->]|[(Hk & Htab & Hr)|(s & a & -> & Hres & _)]].
  - apply is_label_true in Hl.
    unfold note_variable. rewrite variable_of_not_address by congruence. done.
  - unfold note_variable. rewrite variable_of_not_address by congruence.
    split; rewrite ?Htab, ?Hr; done.
  - unfold note_variable. rewrite variable_of_address.
    destruct (Py.isdigit s) eqn:Hd.
    { rewrite resolve_literal in Hres by done. cbn.
      destruct (Py.int s); cbn in Hres; [|done].
      injection Hres as _ Htab Hr. split; rewrite <- ?Htab, <- ?Hr; done. }
    cbn [negb andb].
    destruct (symbol_table st !! s) as [b|] eqn:Hs.
    { rewrite (resolve_present _ _ _ b) in Hres by done.
      injection Hres as _ Htab Hr.
      assert (second_pass_inv labels seen st') as Hinv
        by (split; rewrite <- ?Htab, <- ?Hr; done).
      repeat case_bool_decide; cbn; try done.
      rewrite Hvar in Hs by done.
      assert (s ∈ seen) as Hin.
      { destruct (decide (s ∈ seen)); [done|].
        apply position_None in n. rewrite n in Hs. done. }
      by rewrite bool_decide_eq_true_2. }
    assert (labels !! s = None) as Hls.
    { destruct (labels !! s) as [b|] eqn:E; [|done].
      apply Hlab in E. congruence. }
    rewrite (bool_decide_eq_true_2 _ Hls). cbn [andb].
    destruct (predefined_variable_symbols !! s) as [p|] eqn:Hp.
    + rewrite (resolve_predefined _ _ _ p) in Hres by done.
      injection Hres as _ Htab Hr. rewrite bool_decide_eq_false_2 by done.
      split; rewrite <- ?Htab, <- ?Hr; [done|..].
      * intros s' a' Hs'. rewrite lookup_insert_ne by congruence. eauto.
      * intros s' a' Hs' Hp'. destruct (decide (s = s')) as [<-|Hne].
        -- right. rewrite lookup_insert_eq. congruence.
        -- rewrite lookup_insert_ne by done. eauto.
      * intros s' Hs' Hp'. rewrite lookup_insert_ne by congruence. eauto.
    + rewrite resolve_variable in Hres by done.
      injection Hres as _ Htab Hr. rewrite bool_decide_eq_true_2 by done.
      assert (s ∉ seen) as Hnew.
      { apply position_None. specialize (Hvar s Hls Hp). rewrite Hs in Hvar.
        symmetry in Hvar. by apply fmap_None in Hvar. }
      rewrite bool_decide_eq_false_2 by done.
      split; rewrite <- ?Htab, <- ?Hr; [|..].
      * rewrite length_app. cbn. lia.
      * intros s' a' Hs'. rewrite lookup_insert_ne by congruence. eauto.
      * intros s' a' Hs' Hp'. rewrite lookup_insert_ne by congruence. eauto.
      * intros s' Hs' Hp'. destruct (decide (s = s')) as [<-|Hne].
        -- rewrite lookup_insert_eq, position_snoc_new by done. cbn. by rewrite Hram.
        -- rewrite lookup_insert_ne, position_snoc_other by done. eauto.
Qed.

Lemma second_pass_app st l1 l2 :
  second_pass st (l1 ++ l2) =
  match second_pass st l1 with
  | (st1, None) => second_pass st1 l2
  | (st1, Some e) => (st1, Some e)
  end.
Proof.
  revert st. induction l1 as [|c l1 IH]; intros st; cbn; [done|].
  destruct (translate st c); [apply IH|done].
Qed.

Lemma second_pass_inv_fold labels cmds : forall seen st st',
  second_pass_inv labels seen st ->
  second_pass st cmds = (st', None) ->
  second_pass_inv labels (foldl (note_variable labels) seen cmds) st'.
Proof.
  induction cmds as [|c cmds IH]; intros seen st st' Hinv Hrun; cbn in *.
  - by injection Hrun as <-.
  - destruct (translate st c) as [st1|] eqn:Ht; [|done].
    eapply IH; [|done]. by eapply translate_inv.
Qed.

(** The state after a prefix of the commands that raised nothing. *)
Lemma second_pass_prefix labels pre st :
  second_pass (State labels 16 []) pre = (st, None) ->
  second_pass_inv labels (new_variables labels pre) st.
Proof. apply second_pass_inv_fold, second_pass_inv_init. Qed.








End SecondPass.



(** C2, the claim as stated fails: the table is created empty, so it
    holds no predefined name before the passes run, and a name such as
    SCREEN does not always resolve to its fixed address. *)
Lemma symbol_table_not_seeded :
  predefined_variable_symbols !! "SCREEN" = Some 16384 /\
  SymbolTable.contains SymbolTable.init "SCREEN" = false /\
  SymbolTable.get_address SymbolTable.init "SCREEN" = None /\
  assemble ["D=A"; "(SCREEN)"; "@SCREEN"]
    = (["1110110000010000"; "0000000000000001"], None).
Proof. vm_compute. auto. Qed.

(** C2 (as amended). The symbol table is created empty.  The predefined
    names are kept in the separate mapping [predefined_variable_symbols],
    which the second pass consults for a symbol that is not in the
    table: a predefined name that no label command declares resolves, at
    every reference, to its fixed address, the RAM counter stays as it
    was, and the name is in the table at that address from then on. *)
Theorem predefined_resolved_on_reference
    (cmds pre post : list string) (s : string) (a : N)
    (labels : gmap string N) (n : N) (st : state) :
  first_pass cmds SymbolTable.init 0 = Ok (labels, n) ->
  cmds = pre ++ address_command s :: post ->
  predefined_variable_symbols !! s = Some a ->
  (forall c, c ∈ cmds -> label_name c <> Some s) ->
  second_pass (State labels 16 []) pre = (st, None) ->
  SymbolTable.init = ∅ /\
  exists t,
    translate st (address_command s)
      = Ok (State t (ram_address st) (binprog st ++ [a_bincode a])) /\
    SymbolTable.get_address t s = Some a.
Proof.
  intros Hfp _ Hp Hnolabel Hrun. split; [reflexivity|].
  assert (labels !! s = None) as Hl.
  { rewrite (first_pass_lookup _ _ _ _ Hfp). by apply label_address_None. }
  destruct (second_pass_prefix _ _ _ Hrun) as [_ _ Hpre _].
  pose proof (predefined_not_literal _ _ Hp) as Hd.
  rewrite translate_address.
  destruct (Hpre s a Hl Hp) as [Hs|Hs].
  - exists (<[s := a]> (symbol_table st)).
    rewrite (resolve_predefined _ _ _ a) by done.
    split; [done|]. by rewrite get_address_lookup, lookup_insert_eq.
  - exists (symbol_table st).
    rewrite (resolve_present _ _ _ a) by done.
    split; [done|]. by rewrite get_address_lookup.
Qed.

Lemma predefined_resolved_on_reference_witness :
  let pre := ["@i"; "M=1"; "@SCREEN"; "D=A"] in
  let st := (second_pass (State ∅ 16 []) pre).1 in
  exists t,
    translate st "@SCREEN" = Ok (State t 17 (binprog st ++ ["0100000000000000"])) /\
    SymbolTable.get_address t "SCREEN" = Some 16384.
Proof.
  intros pre st.
  refine (proj2 (predefined_resolved_on_reference (pre ++ ["@SCREEN"]) pre []
            "SCREEN" 16384 ∅ 5 st _ _ _ _ _)); try (vm_compute; reflexivity).
  intros c Hc. apply list_elem_of_In in Hc.
  repeat (destruct Hc as [<-|Hc]; [vm_compute; discriminate|]). destruct Hc.
Defined.

(** C10. When a label command declares a name that is also a predefined
    symbol, the first pass enters the name with the instruction-memory
    address at its first declaration, and every address command of the
    second pass that refers to the name emits the word of that address,
    with the table and the RAM counter left as they are: the table is
    asked before the predefined mapping. *)
Theorem label_shadows_predefined
    (cmds pre post : list string) (lbl s : string) (p : N)
    (labels : gmap string N) (n : N) (st : state) :
  first_pass cmds SymbolTable.init 0 = Ok (labels, n) ->
  lbl ∈ cmds ->
  label_name lbl = Some s ->
  predefined_variable_symbols !! s = Some p ->
  cmds = pre ++ address_command s :: post ->
  second_pass (State labels 16 []) pre = (st, None) ->
  exists i c,
    cmds !! i = Some c /\ label_name c = Some s /\
    (forall i' c', (i' < i)%nat -> cmds !! i' = Some c' -> label_name c' <> Some s) /\
    labels !! s = Some (rom_count (take i cmds)) /\
    translate st (address_command s)
      = Ok (State (symbol_table st) (ram_address st)
                  (binprog st ++ [a_bincode (rom_count (take i cmds))])).
Proof.
  intros Hfp Hin Hname Hp _ Hrun.
  destruct (first_declaration cmds s) as (i & c & Hi & Hc & Hfirst); [eauto|].
  exists i, c. split; [done|]. split; [done|]. split; [done|].
  assert (labels !! s = Some (rom_count (take i cmds))) as Hl.
  { rewrite (first_pass_lookup _ _ _ _ Hfp).
    by rewrite (label_address_first cmds 0 i c s). }
  split; [done|].
  destruct (second_pass_prefix _ _ _ Hrun) as [_ Hlab _ _].
  rewrite translate_address, (resolve_present _ _ _ (rom_count (take i cmds))); [done| |].
  - by eapply predefined_not_literal.
  - by apply Hlab.
Qed.

Lemma label_shadows_predefined_witness :
  let cmds := ["@SCREEN"; "D=A"; "(SCREEN)"; "@SCREEN"; "0;JMP"] in
  exists i,
    rom_count (take i cmds) = 2 /\
    translate (second_pass (State {[ "SCREEN" := 2 ]} 16 []) (take 3 cmds)).1 "@SCREEN"
      = Ok (State {[ "SCREEN" := 2 ]} 16
              ["0000000000000010"; "1110110000010000"; "0000000000000010"]).
Proof.
  intros cmds.
  destruct (label_shadows_predefined cmds (take 3 cmds) ["0;JMP"] "(SCREEN)" "SCREEN"
              16384 {[ "SCREEN" := 2 ]} 4
              (second_pass (State {[ "SCREEN" := 2 ]} 16 []) (take 3 cmds)).1)
    as (i & c & Hi & Hc & Hfirst & Hl & Ht); try (vm_compute; reflexivity).
  { apply list_elem_of_In. vm_compute. auto. }
  assert (rom_count (take i cmds) = 2) as Hr.
  { assert (({[ "SCREEN" := 2 ]} : gmap string N) !! "SCREEN" = Some 2) as H2
      by (vm_compute; reflexivity).
    rewrite H2 in Hl. by injection Hl. }
  exists i. split; [exact Hr|]. rewrite Hr in Ht. exact Ht.
Defined.

(** ** Splitting a command *)

Section Strings.

Lemma prefix_chr c x t : String.prefix (String c EmptyString) (String x t) = Ascii.eqb x c.
Proof.
  cbn. destruct (ascii_dec c x) as [->|Hne].
  - rewrite Ascii.eqb_refl. by destruct t.
  - symmetry. apply Ascii.eqb_neq. congruence.
Qed.

Lemma str_in_chr c s :
  Py.str_in (String c EmptyString) s = bool_decide (index_of c s <> None).
Proof.
  induction s as [|x t IH]; [done|].
  cbn [Py.str_in index_of]. rewrite prefix_chr.
  destruct (Ascii.eqb x c); [done|]. cbn [orb]. rewrite IH.
  by destruct (index_of c t).
Qed.

Lemma substring_all s : String.substring 0 (String.length s) s = s.
Proof. induction s as [|x t IH]; cbn; [done|]. by rewrite IH. Qed.

Lemma slice_all s : slice 0 (String.length s) s = s.
Proof. unfold slice. rewrite Nat.sub_0_r. apply substring_all. Qed.

Lemma slice_S i j x t : slice (S i) (S j) (String x t) = slice i j t.
Proof. reflexivity. Qed.

Lemma slice_0_S j x t : slice 0 (S j) (String x t) = String x (slice 0 j t).
Proof. unfold slice. cbn. by rewrite Nat.sub_0_r. Qed.

Lemma slice_0_0 s : slice 0 0 s = EmptyString.
Proof. by destruct s. Qed.

(** [split] on a separator of one character: the text before its first
    occurrence, then the fields of the text after it. *)
Lemma split_chr c s :
  Py.split (String c EmptyString) s =
  match index_of c s with
  | None => [s]
  | Some i =>
      slice 0 i s :: Py.split (String c EmptyString) (slice (S i) (String.length s) s)
  end.
Proof.
  unfold Py.split. induction s as [|x t IH]; [done|].
  cbn [Py.split_from index_of]. rewrite prefix_chr.
  destruct (Ascii.eqb x c).
  - cbn [String.length Nat.sub]. rewrite slice_S, slice_all. by rewrite slice_0_0.
  - rewrite IH. destruct (index_of c t) as [i|]; cbn [fmap option_fmap option_map].
    + cbn [String.length]. by rewrite slice_S, slice_0_S.
    + done.
Qed.

Lemma split_chr_head c s :
  Py.index (Py.split (String c EmptyString) s) 0 =
  Ok (match index_of c s with Some i => slice 0 i s | None => s end).
Proof. rewrite split_chr. by destruct (index_of c s). Qed.

Lemma index_of_substring_None c s : forall i m,
  index_of c s = None -> index_of c (String.substring i m s) = None.
Proof.
  induction s as [|x t IH]; intros i m H.
  - by destruct i, m.
  - cbn [index_of] in H. destruct (Ascii.eqb x c) eqn:E; [done|].
    apply fmap_None in H. destruct i as [|i]; cbn.
    + destruct m as [|m]; [done|]. cbn. rewrite E. by rewrite IH.
    + by apply IH.
Qed.

Lemma index_of_slice_None c s i j :
  index_of c s = None -> index_of c (slice i j s) = None.
Proof. apply index_of_substring_None. Qed.

(** [Parser.comp] never raises, and what it returns on any command. *)
Lemma comp_computation_field cmd : Parser.comp cmd = Ok (computation_field cmd).
Proof.
  unfold Parser.comp, computation_field. rewrite !str_in_chr.
  rewrite (split_chr "=" cmd).
  destruct (index_of "=" cmd) as [i|] eqn:Hi.
  - set (rest := slice (S i) (String.length cmd) cmd).
    assert (forall f, Py.index (f :: Py.split "=" rest) 1 = Py.index (Py.split "=" rest) 0)
      as -> by done.
    rewrite split_chr_head.
    set (field := match index_of "=" rest with Some k => slice 0 k rest | None => rest end).
    destruct (index_of ";" cmd) as [j|] eqn:Hj; cbn [andb mbind result_bind].
    + apply split_chr_head.
    + assert (index_of ";" field = None) as ->; [|done].
      assert (index_of ";" rest = None) by by apply index_of_slice_None.
      unfold field. destruct (index_of "=" rest); [|done].
      by apply index_of_slice_None.
  - cbn [andb]. apply split_chr_head.
Qed.

Lemma count_chr_after c s : forall i,
  index_of c s = Some i ->
  count_chr c s = S (count_chr c (slice (S i) (String.length s) s)).
Proof.
  induction s as [|x t IH]; intros i H; [done|].
  cbn [index_of count_chr] in *. destruct (Ascii.eqb x c).
  - injection H as <-. cbn [String.length]. by rewrite slice_S, slice_all.
  - destruct (index_of c t) as [k|]; [|done]. injection H as <-.
    cbn [String.length]. rewrite slice_S. by rewrite (IH k).
Qed.

Lemma count_chr_0 c s : count_chr c s = O -> index_of c s = None.
Proof.
  induction s as [|x t IH]; [done|]. cbn.
  destruct (Ascii.eqb x c); [done|]. cbn. intros H. by rewrite IH.
Qed.

Lemma index_of_slice_after c s : forall i j,
  index_of c s = Some j -> (i <= j)%nat ->
  index_of c (slice i (String.length s) s) = Some (j - i)%nat /\
  slice 0 (j - i) (slice i (String.length s) s) = slice i j s.
Proof.
  induction s as [|x t IH]; intros i j H Hij; [done|].
  destruct i as [|i].
  - rewrite slice_all, Nat.sub_0_r. done.
  - destruct j as [|j]; [lia|].
    cbn [index_of] in H. destruct (Ascii.eqb x c); [done|].
    destruct (index_of c t) as [k|] eqn:Hk; [|done]. injection H as ->.
    cbn [String.length]. rewrite !slice_S. cbn [Nat.sub]. apply IH; [done|lia].
Qed.

End Strings.

(** C6, the claim as stated fails.  With a second [=] the result stops
    at it: for D=A=M the program returns A where the rule gives A=M, with
    or without a jump part.  With a [;] before the [=] the program
    returns the text after the [=], which is not between the two. *)
Lemma comp_cut_at_second_equals :
  Parser.comp "D=A=M" = Ok "A" /\ computation_rule "D=A=M" = "A=M" /\
  Parser.comp "D=A=M;JMP" = Ok "A" /\ computation_rule "D=A=M;JMP" = "A=M" /\
  Parser.comp "D;J=X" = Ok "X" /\ computation_rule "D;J=X" = EmptyString.
Proof. vm_compute. auto 10. Qed.

(** C6 (as amended). For every command with at most one [=] in which no
    [;] comes before the [=], [comp] returns without raising: the text
    between the [=] and the first [;] when both occur, the text after
    the [=] when only [=] occurs, the text before the first [;] when
    only [;] occurs, and the whole command when neither occurs. *)
Theorem comp_follows_rule (cmd : string) :
  (count_chr "=" cmd <= 1)%nat ->
  (forall i j, index_of "=" cmd = Some i -> index_of ";" cmd = Some j -> (i < j)%nat) ->
  Parser.comp cmd = Ok (computation_rule cmd).
Proof.
  intros Hcount Horder. rewrite comp_computation_field. f_equal.
  unfold computation_field, computation_rule.
  destruct (index_of "=" cmd) as [i|] eqn:Hi.
  - set (rest := slice (S i) (String.length cmd) cmd).
    assert (index_of "=" rest = None) as ->.
    { apply count_chr_0. apply count_chr_after in Hi. fold rest in Hi. lia. }
    subst rest. destruct (index_of ";" cmd) as [j|] eqn:Hj.
    + destruct (index_of_slice_after ";" cmd (S i) j Hj) as [-> ->]; [|done].
      by apply Horder.
    + by rewrite index_of_slice_None.
  - by destruct (index_of ";" cmd).
Qed.

Lemma comp_follows_rule_witness :
  Parser.comp "MD=D+1;JGT" = Ok "D+1".
Proof.
  apply (comp_follows_rule "MD=D+1;JGT").
  - vm_compute. lia.
  - intros i j Hi Hj. vm_compute in Hi, Hj.
    injection Hi as <-. injection Hj as <-. lia.
Defined.

(** ** Computation commands and the code tables *)

Section CodeFacts.

Lemma comp_table_keys_NoDup : NoDup Code.comp_table_entries.*1.
Proof. apply (bool_decide_unpack _). vm_compute. exact I. Qed.

Lemma comp_known m code :
  (m, code) ∈ Code.comp_table_entries -> Code.comp m = Ok code.
Proof.
  intros H. unfold Code.comp, Code.getitem, Code.comp_table.
  by rewrite (elem_of_list_to_map_1 _ _ _ comp_table_keys_NoDup H).
Qed.

Lemma comp_unknown m :
  m ∉ Code.comp_table_entries.*1 -> Code.comp m = Raise (KeyError m).
Proof.
  intros H. unfold Code.comp, Code.getitem, Code.comp_table.
  by rewrite (not_elem_of_list_to_map_1 _ _ H).
Qed.

Lemma comp_codes_seven_bits :
  Forall (fun e => String.length e.2 = 7%nat /\ Py.forallb_str is_bit e.2 = true)
    Code.comp_table_entries.
Proof. repeat constructor. Qed.

Lemma translate_computation st c :
  Parser.command_type c = Ok C_COMMAND ->
  translate st c =
  (bincode ← c_bincode c;
   Ok (State (symbol_table st) (ram_address st) (binprog st ++ [bincode]))).
Proof. intros H. unfold translate. by rewrite H. Qed.

Lemma translate_unknown_comp st c m :
  Parser.command_type c = Ok C_COMMAND ->
  Parser.comp c = Ok m ->
  m ∉ Code.comp_table_entries.*1 ->
  translate st c = Raise (KeyError m).
Proof.
  intros Hk Hm Hnot. rewrite translate_computation by done.
  unfold c_bincode. rewrite Hm. cbn [mbind result_bind].
  by rewrite comp_unknown.
Qed.

End CodeFacts.

(** C7. The computation table has 28 entries, and for each of them the
    lookup returns its code, seven binary digits.  When the second pass
    reaches a computation command whose computation mnemonic is none of
    the 28, the lookup raises (Python's [KeyError], the UnknownMnemonic
    of the specification), nothing catches it, and the run ends there:
    the output holds the words of the commands before it and no more. *)
Theorem unknown_computation_is_fatal :
  (length Code.comp_table_entries = 28%nat /\
   size Code.comp_table = 28%nat /\
   forall m code,
     (m, code) ∈ Code.comp_table_entries ->
     Code.comp m = Ok code /\ String.length code = 7%nat /\
     Py.forallb_str is_bit code = true) /\
  (forall (cmds pre post : list string) (c m : string)
          (labels : gmap string N) (n : N) (st : state),
     first_pass cmds SymbolTable.init 0 = Ok (labels, n) ->
     cmds = pre ++ c :: post ->
     second_pass (State labels 16 []) pre = (st, None) ->
     Parser.command_type c = Ok C_COMMAND ->
     Parser.comp c = Ok m ->
     m ∉ Code.comp_table_entries.*1 ->
     Code.comp m = Raise (KeyError m) /\
     translate st c = Raise (KeyError m) /\
     assemble cmds = (binprog st, Some (KeyError m))).
Proof.
  split.
  - split; [reflexivity|]. split; [vm_compute; reflexivity|]. intros m code H.
    split; [by apply comp_known|].
    pose proof comp_codes_seven_bits as Hall.
    rewrite Forall_forall in Hall. apply (Hall (m, code) H).
  - intros cmds pre post c m labels n st Hfp -> Hrun Hk Hm Hnot.
    split; [by apply comp_unknown|].
    assert (translate st c = Raise (KeyError m)) as Ht
      by by apply translate_unknown_comp.
    split; [exact Ht|].
    unfold assemble. rewrite Hfp, second_pass_app, Hrun.
    cbn [second_pass]. by rewrite Ht.
Qed.

Lemma unknown_computation_is_fatal_witness :
  assemble ["@1"; "D=Q"; "@2"] = (["0000000000000001"], Some (KeyError "Q")).
Proof.
  refine (proj2 (proj2 (proj2 unknown_computation_is_fatal
    ["@1"; "D=Q"; "@2"] ["@1"] ["@2"] "D=Q" "Q" ∅ 3
    (State ∅ 16 ["0000000000000001"]) _ _ _ _ _ _)));
    try (vm_compute; reflexivity).
  apply (bool_decide_unpack _). vm_compute. exact I.
Defined.

(** ** Literal addresses *)

Section Literals.

Lemma length_pos_bits p : forall low,
  String.length (Py.pos_bits p low) = (Pos.size_nat p + String.length low)%nat.
Proof.
  induction p as [q IH|q IH|]; intros low; cbn [Py.pos_bits Pos.size_nat].
  - rewrite IH. cbn. lia.
  - rewrite IH. cbn. lia.
  - done.
Qed.

Lemma bits_pos_bits p : forall low,
  Py.forallb_str is_bit (Py.pos_bits p low) = Py.forallb_str is_bit low.
Proof. induction p as [q IH|q IH|]; intros low; cbn; by rewrite ?IH. Qed.

Lemma bin_value_pos_bits p : forall low,
  bin_value_from 0 (Py.pos_bits p low) = bin_value_from (Npos p) low.
Proof. induction p as [q IH|q IH|]; intros low; cbn; by rewrite ?IH. Qed.

Lemma bits_bin n : Py.forallb_str is_bit (Py.bin n) = true.
Proof. destruct n as [|p]; [done|]. cbn. by rewrite bits_pos_bits. Qed.

Lemma bin_value_bin n : bin_value (Py.bin n) = n.
Proof.
  destruct n as [|p]; [done|]. unfold bin_value. cbn.
  by rewrite bin_value_pos_bits.
Qed.

Lemma length_bin_small n : n <= 32767 -> (String.length (Py.bin n) <= 15)%nat.
Proof.
  destruct n as [|p]; cbn; [lia|]. intros H.
  rewrite length_pos_bits. cbn [String.length]. rewrite Nat.add_0_r.
  destruct (decide (p = 32767%positive)) as [->|Hne]; [done|].
  change 15%nat with (Pos.size_nat 32767). apply Pos.size_nat_monotone. lia.
Qed.

Lemma length_bin_large n : 32768 <= n -> (16 <= String.length (Py.bin n))%nat.
Proof.
  destruct n as [|p]; cbn; [lia|]. intros H.
  rewrite length_pos_bits. cbn [String.length]. rewrite Nat.add_0_r.
  destruct (decide (p = 32768%positive)) as [->|Hne]; [done|].
  change 16%nat with (Pos.size_nat 32768). apply Pos.size_nat_monotone. lia.
Qed.

Lemma length_replicate_chr k c : String.length (Py.replicate_chr k c) = k.
Proof. induction k; cbn; congruence. Qed.

Lemma append_cons c a b : String c a +:+ b = String c (a +:+ b).
Proof. reflexivity. Qed.

Lemma length_append a b :
  String.length (a +:+ b) = (String.length a + String.length b)%nat.
Proof.
  induction a as [|c a IH]; [done|]. rewrite append_cons. cbn. by rewrite IH.
Qed.

Lemma length_rjust w c s :
  (String.length s <= w)%nat -> String.length (Py.rjust w c s) = w.
Proof.
  intros H. unfold Py.rjust. rewrite length_append, length_replicate_chr. lia.
Qed.

Lemma rjust_long w c s : (w <= String.length s)%nat -> Py.rjust w c s = s.
Proof.
  intros H. unfold Py.rjust. by replace (w - String.length s)%nat with O by lia.
Qed.

Lemma replicate_chr_snoc k c s :
  Py.replicate_chr k c +:+ String c s = String c (Py.replicate_chr k c +:+ s).
Proof.
  induction k as [|k IH]; [done|].
  cbn [Py.replicate_chr]. by rewrite !append_cons, IH.
Qed.

Lemma bits_replicate_zero k s :
  Py.forallb_str is_bit (Py.replicate_chr k "0" +:+ s) = Py.forallb_str is_bit s.
Proof.
  induction k as [|k IH]; [done|].
  cbn [Py.replicate_chr]. rewrite append_cons. cbn. by rewrite IH.
Qed.

Lemma bin_value_replicate_zero k s :
  bin_value_from 0 (Py.replicate_chr k "0" +:+ s) = bin_value_from 0 s.
Proof.
  induction k as [|k IH]; [done|].
  cbn [Py.replicate_chr]. rewrite append_cons. cbn. exact IH.
Qed.

Lemma a_bincode_eq n : a_bincode n = Py.rjust 16 "0" (String "0" (Py.bin n)).
Proof. reflexivity. Qed.

(** The word of an address below 2^15. *)
Lemma a_bincode_small n :
  n <= 32767 ->
  a_bincode n = String "0" (Py.rjust 15 "0" (Py.bin n)).
Proof.
  intros H. apply length_bin_small in H. rewrite a_bincode_eq. unfold Py.rjust.
  cbn [String.length]. rewrite replicate_chr_snoc.
  by replace (16 - S (String.length (Py.bin n)))%nat
    with (15 - String.length (Py.bin n))%nat by lia.
Qed.

Lemma bin_value_a_bincode n : bin_value (a_bincode n) = n.
Proof.
  rewrite a_bincode_eq. unfold Py.rjust, bin_value.
  rewrite bin_value_replicate_zero. apply bin_value_bin.
Qed.

Lemma bits_a_bincode n : Py.forallb_str is_bit (a_bincode n) = true.
Proof.
  rewrite a_bincode_eq. unfold Py.rjust. rewrite bits_replicate_zero.
  apply bits_bin.
Qed.

Lemma isdigit_ascii s :
  s <> EmptyString -> Py.forallb_str Py.is_ascii_digit s = true -> Py.isdigit s = true.
Proof.
  destruct s as [|c t]; [done|]. intros _. unfold Py.isdigit.
  generalize (String c t). clear. intros s. induction s as [|c t IH]; cbn; [done|].
  intros H. apply andb_prop in H as [Hc Ht]. rewrite IH by done.
  unfold Py.isdigit_chr. by rewrite Hc.
Qed.

(** The second pass on an address command whose symbol is a literal. *)
Lemma int_literal s :
  Py.forallb_str Py.is_ascii_digit s = true ->
  N.of_nat (String.length s) <= Py.int_max_str_digits ->
  Py.int s = Ok (Py.int_digits 0 s).
Proof.
  intros Hd Hlen. unfold Py.int. rewrite Hd.
  by rewrite (proj2 (N.ltb_ge _ _) Hlen).
Qed.

Lemma int_Raise s e : Py.int s = Raise e -> e = ValueError s.
Proof.
  unfold Py.int. destruct (Py.forallb_str Py.is_ascii_digit s).
  - destruct (Py.int_max_str_digits <? _); congruence.
  - congruence.
Qed.

Lemma translate_literal st s :
  s <> EmptyString -> Py.forallb_str Py.is_ascii_digit s = true ->
  N.of_nat (String.length s) <= Py.int_max_str_digits ->
  translate st (address_command s) =
  Ok (State (symbol_table st) (ram_address st)
            (binprog st ++ [a_bincode (Py.int_digits 0 s)])).
Proof.
  intros Hne Hd Hlen.
  rewrite translate_address, resolve_literal by by apply isdigit_ascii.
  by rewrite int_literal.
Qed.

End Literals.

(** C3, the claim as stated fails for a literal written with more
    digits than [int] converts: the symbol made of 4300 zeros followed
    by 21 is a decimal literal of value 21, and the second pass raises a
    [ValueError] on it and emits no word. *)
Lemma long_literal_raises :
  let s := Py.replicate_chr 4300 "0" +:+ "21" in
  Py.isdigit s = true /\
  Py.forallb_str Py.is_ascii_digit s = true /\
  Py.int_digits 0 s = 21 /\
  translate (State ∅ 16 []) (address_command s) = Raise (ValueError s).
Proof. vm_compute. auto. Qed.

(** C3 (as amended). For an address command whose symbol is a decimal
    literal of value [n] with [n <= 32767], written with at most 4300
    digits, the second pass emits one word and changes nothing else; the
    word has 16 characters, all binary digits: a 0 followed by the
    binary digits of [n] padded with zeros on the left to 15 characters,
    and its value is [n]. *)
Theorem literal_address_word (st : state) (s : string) (n : N) :
  s <> EmptyString ->
  Py.forallb_str Py.is_ascii_digit s = true ->
  N.of_nat (String.length s) <= Py.int_max_str_digits ->
  Py.int_digits 0 s = n ->
  n <= 32767 ->
  translate st (address_command s)
    = Ok (State (symbol_table st) (ram_address st) (binprog st ++ [a_bincode n])) /\
  a_bincode n = String "0" (Py.rjust 15 "0" (Py.bin n)) /\
  String.length (a_bincode n) = 16%nat /\
  Py.forallb_str is_bit (a_bincode n) = true /\
  bin_value (a_bincode n) = n.
Proof.
  intros Hne Hd Hlen <- Hn. split; [by apply translate_literal|].
  split; [by apply a_bincode_small|]. split; [|split].
  - rewrite a_bincode_small by done. cbn [String.length]. f_equal.
    apply length_rjust. by apply length_bin_small.
  - apply bits_a_bincode.
  - apply bin_value_a_bincode.
Qed.

Lemma literal_address_word_witness :
  translate (State ∅ 16 []) "@00021" = Ok (State ∅ 16 ["0000000000010101"]).
Proof.
  refine (proj1 (literal_address_word (State ∅ 16 []) "00021" 21 _ _ _ _ _));
    [discriminate|reflexivity|vm_compute; discriminate|reflexivity
    |vm_compute; discriminate].
Defined.

(** C9, the claim as stated fails for a literal written with more
    digits than [int] converts: the symbol made of a 1 followed by 4300
    zeros is a decimal literal of a value above 32767, and the second
    pass raises a [ValueError] on it and emits no string at all. *)
Lemma huge_literal_raises :
  let s := String "1" (Py.replicate_chr 4300 "0") in
  Py.isdigit s = true /\
  Py.forallb_str Py.is_ascii_digit s = true /\
  (32768 <=? Py.int_digits 0 s) = true /\
  translate (State ∅ 16 []) (address_command s) = Raise (ValueError s).
Proof. vm_compute. auto. Qed.

(** C9 (as amended). For an address command whose symbol is a decimal
    literal of value [n] with [n >= 32768], written with at most 4300
    digits, the word emitted is a 0 followed by all the binary digits of
    [n], of which there are 16 or more: it is longer than 16 characters
    and its value is still [n], nothing being cut off or reduced. *)
Theorem large_literal_word_too_long (st : state) (s : string) (n : N) :
  s <> EmptyString ->
  Py.forallb_str Py.is_ascii_digit s = true ->
  N.of_nat (String.length s) <= Py.int_max_str_digits ->
  Py.int_digits 0 s = n ->
  32768 <= n ->
  translate st (address_command s)
    = Ok (State (symbol_table st) (ram_address st) (binprog st ++ [a_bincode n])) /\
  a_bincode n = String "0" (Py.bin n) /\
  (16 <= String.length (Py.bin n))%nat /\
  (16 < String.length (a_bincode n))%nat /\
  bin_value (a_bincode n) = n.
Proof.
  intros Hne Hd Hdigits <- Hn. split; [by apply translate_literal|].
  pose proof (length_bin_large _ Hn) as Hlen.
  assert (a_bincode (Py.int_digits 0 s) = String "0" (Py.bin (Py.int_digits 0 s))) as Heq.
  { rewrite a_bincode_eq. apply rjust_long. cbn [String.length]. lia. }
  split; [exact Heq|]. split; [exact Hlen|]. split.
  - rewrite Heq. cbn [String.length]. lia.
  - apply bin_value_a_bincode.
Qed.

Lemma large_literal_word_too_long_witness :
  translate (State ∅ 16 []) "@32768" = Ok (State ∅ 16 ["01000000000000000"]).
Proof.
  refine (proj1 (large_literal_word_too_long (State ∅ 16 []) "32768" 32768 _ _ _ _ _));
    [discriminate|reflexivity|vm_compute; discriminate|reflexivity
    |vm_compute; discriminate].
Defined.

(** ** A complete run *)

(** C1. Scenario 1: the six commands are translated to the six words
    listed, in that order, and the run ends without an exception; the
    same holds from the lines of a file that holds these commands. *)
Theorem scenario_1_words :
  let commands := ["@2"; "D=A"; "@3"; "D=D+A"; "@0"; "M=D"] in
  let words := ["0000000000000010"; "1110110000010000"; "0000000000000011";
                "1110000010010000"; "0000000000000000"; "1110001100001000"] in
  assemble commands = (words, None) /\
  Parser.init commands = Ok commands /\
  main commands = (words, None).
Proof. vm_compute. auto. Qed.

(** * Further properties of the program *)

(** ** The lines of the file *)

Section Lines.

Lemma split_before_sub sep s :
  exists fs, Py.split sep s = before_sub sep s :: fs.
Proof.
  unfold Py.split. induction s as [|c t IH]; [by exists []|].
  cbn [Py.split_from before_sub]. destruct (String.prefix sep (String c t)); [eauto|].
  destruct IH as [fs ->]. by exists fs.
Qed.

Lemma init_loop_clean lines : forall acc,
  Parser.init_loop lines acc
  = Ok (acc ++ filter (fun c => c <> EmptyString) (clean_line <$> lines)).
Proof.
  induction lines as [|l ls IH]; intros acc; cbn [Parser.init_loop].
  - cbn. by rewrite app_nil_r.
  - destruct (split_before_sub "//" (Py.join_split l)) as [fs ->].
    rewrite index_head. cbn [mbind result_bind]. fold (clean_line l).
    rewrite fmap_cons, filter_cons.
    destruct (clean_line l) as [|c t] eqn:E; cbn [String.length Nat.ltb Nat.leb].
    + rewrite decide_False by (intros H; by apply H). apply IH.
    + rewrite decide_True by done. rewrite IH. by rewrite <- app_assoc.
Qed.

Lemma no_space_join_split s : no_space (Py.join_split s) = true.
Proof.
  unfold no_space. induction s as [|c t IH]; [done|]. cbn [Py.join_split].
  destruct (Py.isspace c) eqn:E; [done|]. cbn. by rewrite E.
Qed.

Lemma no_space_before_sub sep s : no_space s = true -> no_space (before_sub sep s) = true.
Proof.
  unfold no_space. induction s as [|c t IH]; [done|]. cbn [before_sub Py.forallb_str].
  intros H. apply andb_prop in H as [Hc Ht].
  destruct (String.prefix sep (String c t)); [done|]. cbn. by rewrite Hc, IH.
Qed.

Lemma prefix_before_sub sep t : forall p,
  String.prefix p (before_sub sep t) = true -> String.prefix p t = true.
Proof.
  induction t as [|x t IH]; intros p; [done|]. cbn [before_sub].
  destruct (String.prefix sep (String x t)).
  - destruct p; [done|]. done.
  - destruct p as [|a p]; [done|]. cbn. destruct (ascii_dec a x); [apply IH|done].
Qed.

Lemma str_in_before_sub sep s :
  sep <> EmptyString -> Py.str_in sep (before_sub sep s) = false.
Proof.
  intros Hsep. destruct sep as [|a sep]; [done|]. clear Hsep.
  induction s as [|c t IH]; [done|]. cbn [before_sub].
  destruct (String.prefix (String a sep) (String c t)) eqn:E; [done|].
  cbn [Py.str_in]. rewrite IH, orb_false_r.
  destruct (String.prefix (String a sep) (String c (before_sub (String a sep) t))) eqn:E';
    [|done].
  cbn in E, E'. destruct (ascii_dec a c); [|done].
  apply prefix_before_sub in E'. congruence.
Qed.

Lemma join_split_no_space s : no_space s = true -> Py.join_split s = s.
Proof.
  unfold no_space. induction s as [|c t IH]; [done|]. cbn.
  intros H. apply andb_prop in H as [Hc Ht]. apply negb_true_iff in Hc.
  by rewrite Hc, IH.
Qed.

Lemma before_sub_absent sep s : Py.str_in sep s = false -> before_sub sep s = s.
Proof.
  induction s as [|c t IH]; [done|]. cbn [Py.str_in before_sub].
  intros H. apply orb_false_elim in H as [H1 H2]. by rewrite H1, IH.
Qed.

End Lines.

(** X1. Whatever the lines of the file, building the parser raises
    nothing, and every command it keeps is not empty, holds no
    whitespace and holds no comment marker. *)
Theorem init_commands_normalised (lines : list string) :
  exists cmds,
    Parser.init lines = Ok cmds /\
    Forall (fun c => c <> EmptyString /\ no_space c = true /\ Py.str_in "//" c = false) cmds.
Proof.
  unfold Parser.init. rewrite init_loop_clean. eexists. split; [done|].
  cbn [app]. apply Forall_forall. intros c Hc.
  apply list_elem_of_filter in Hc as [Hne Hc].
  apply list_elem_of_fmap in Hc as (l & -> & _).
  split; [done|]. split.
  - apply no_space_before_sub, no_space_join_split.
  - by apply str_in_before_sub.
Qed.

(** X2. The commands of the parser are the lines of the file, in order,
    each without its whitespace and cut at its first comment marker, the
    lines of which nothing remains being dropped; so the commands of a
    file made of two parts are those of the first part followed by those
    of the second. *)
Theorem init_cleans_each_line (lines more : list string) :
  Parser.init lines = Ok (filter (fun c => c <> EmptyString) (clean_line <$> lines)) /\
  Parser.init (lines ++ more)
  = (a ← Parser.init lines; b ← Parser.init more; Ok (a ++ b)).
Proof.
  unfold Parser.init. rewrite !init_loop_clean. cbn [app mbind result_bind].
  split; [done|]. by rewrite fmap_app, filter_app.
Qed.

(** X3. The parser changes nothing in lines that are already commands:
    given its own output as input, it returns it as it is. *)
Theorem init_idempotent (lines cmds : list string) :
  Parser.init lines = Ok cmds -> Parser.init cmds = Ok cmds.
Proof.
  intros H. destruct (init_commands_normalised lines) as (cmds' & H' & Hall).
  rewrite H in H'. injection H' as <-.
  unfold Parser.init. rewrite init_loop_clean. cbn [app]. f_equal. clear H.
  induction Hall as [|c cs (Hne & Hsp & Hcm) _ IH]; [done|].
  rewrite fmap_cons, filter_cons.
  assert (clean_line c = c) as ->.
  { unfold clean_line. rewrite join_split_no_space by done. by apply before_sub_absent. }
  rewrite decide_True by done. by rewrite IH.
Qed.

Lemma init_idempotent_witness :
  Parser.init ["@i"; "M=1"; "(LOOP)"] = Ok ["@i"; "M=1"; "(LOOP)"].
Proof.
  apply (init_idempotent ["  @i // counter"; "// start"; "M = 1"; "(LOOP)"]).
  vm_compute. reflexivity.
Defined.

(** X4. On the lines of any file the parser and the first pass raise
    nothing: the first pass ends with the ROM counter at the number of
    address and computation commands. *)
Theorem first_pass_never_raises (lines : list string) :
  exists cmds t,
    Parser.init lines = Ok cmds /\
    first_pass cmds SymbolTable.init 0 = Ok (t, rom_count cmds).
Proof.
  destruct (init_nonempty lines) as (cmds & Hinit & Hne).
  destruct (first_pass_spec cmds SymbolTable.init 0 Hne) as (t & Ht & _).
  exists cmds, t. split; [done|]. by rewrite Ht.
Qed.

(** ** The cursor and the two loops *)

Section CursorFacts.

Context {S : Type} (body : string -> S -> result S).

Lemma while_more_from cmds : forall fuel k cur s,
  (length cmds - k <= fuel)%nat ->
  Cursor.while_more fuel body (Cursor.Parser cmds k cur) s =
  Some match for_each body (drop k cmds) s with
       | Ok s' =>
           Ok (Cursor.Parser cmds (max k (length cmds))
                 (from_option Some cur (last (drop k cmds))), s')
       | Raise e => Raise e
       end.
Proof.
  induction fuel as [|fuel IH]; intros k cur s Hfuel.
  - assert (length cmds <= k)%nat as Hk by lia.
    cbn [Cursor.while_more]. unfold Cursor.has_more_commands.
    cbn [Cursor.commands Cursor.command_index].
    rewrite (proj2 (Nat.ltb_ge _ _) Hk), drop_ge by done; cbn.
    by replace (max k (length cmds)) with k by lia.
  - destruct (decide (k < length cmds)%nat) as [Hk|Hk].
    + destruct (lookup_lt_is_Some_2 cmds k Hk) as [c Hc].
      cbn [Cursor.while_more]. unfold Cursor.has_more_commands, Cursor.advance, Py.index.
      cbn [Cursor.commands Cursor.command_index].
      rewrite (proj2 (Nat.ltb_lt _ _) Hk), Hc. cbn [mbind result_bind Cursor.current
        Cursor.current_command].
      rewrite (drop_S _ _ _ Hc). cbn [for_each].
      destruct (body c s) as [s'|e]; cbn [mbind result_bind]; [|done].
      rewrite IH by (cbn; lia). f_equal.
      destruct (for_each body (drop (Datatypes.S k) cmds) s'); [|done].
      f_equal. f_equal. f_equal; [lia|].
      destruct (drop (Datatypes.S k) cmds) as [|x l] eqn:E; [done|].
      change (last (c :: x :: l)) with (last (x :: l)).
      destruct (last (x :: l)) eqn:El; [done|]. by apply last_None in El.
    + cbn [Cursor.while_more]. unfold Cursor.has_more_commands.
      cbn [Cursor.commands Cursor.command_index].
      rewrite (proj2 (Nat.ltb_ge _ _)), drop_ge by lia; cbn.
      by replace (max k (length cmds)) with k by lia.
Qed.

End CursorFacts.

Lemma for_each_first_pass cmds : forall t r,
  for_each first_pass_body cmds (t, r) = first_pass cmds t r.
Proof.
  unfold first_pass_body.
  induction cmds as [|c cmds IH]; intros t r; [reflexivity|].
  cbn [for_each first_pass].
  destruct (Parser.command_type c) as [k|]; cbn [mbind result_bind]; [|done].
  destruct (kind_eqb k L_COMMAND); cbn [fst snd].
  - destruct (Parser.symbol c); cbn [mbind result_bind]; [apply IH|done].
  - cbn [mbind result_bind]. apply IH.
Qed.

Lemma for_each_second_pass cmds : forall st,
  second_pass st cmds =
  match for_each (fun c st => translate st c) cmds st with
  | Ok st' => (st', None)
  | Raise e => ((second_pass st cmds).1, Some e)
  end.
Proof.
  induction cmds as [|c cmds IH]; intros st; [done|].
  cbn [for_each second_pass].
  destruct (translate st c) as [st1|e]; cbn [mbind result_bind]; [|done].
  rewrite IH at 1. by destruct (for_each _ cmds st1).
Qed.

(** X5. The loop [while has_more_commands(): advance(); body] started
    on a rewound parser runs the body on every command once, in order,
    and stops at the first exception of the body; it needs no more
    rounds than there are commands; when it ends normally the cursor is
    at the end of the list, where [has_more_commands] is false and a
    further [advance] is an [IndexError]. *)
Theorem cursor_loop_visits_each_command {S : Type}
    (body : string -> S -> result S) (p : Cursor.parser) (s : S) (fuel : nat) :
  (length (Cursor.commands p) <= fuel)%nat ->
  let cmds := Cursor.commands p in
  let stop := Cursor.Parser cmds (length cmds) (last cmds) in
  Cursor.while_more fuel body (Cursor.rewind p) s =
    Some match for_each body cmds s with
         | Ok s' => Ok (stop, s')
         | Raise e => Raise e
         end /\
  Cursor.has_more_commands stop = false /\
  Cursor.advance stop = Raise IndexError.
Proof.
  intros Hfuel cmds stop. split; [|split].
  - unfold Cursor.rewind. fold cmds. rewrite while_more_from by (subst cmds; lia).
    rewrite drop_0. f_equal. destruct (for_each body cmds s); [|done].
    unfold stop. f_equal. f_equal. f_equal. by destruct (last cmds).
  - unfold Cursor.has_more_commands, stop. cbn. apply Nat.ltb_irrefl.
  - unfold Cursor.advance, Py.index, stop. cbn.
    by rewrite (lookup_ge_None_2 cmds (length cmds)).
Qed.

Lemma cursor_loop_visits_each_command_witness :
  Cursor.while_more 3 first_pass_body
    (Cursor.rewind (Cursor.Parser ["(LOOP)"; "@LOOP"; "0;JMP"] 3 (Some "0;JMP")))
    (SymbolTable.init, 0)
  = Some (Ok (Cursor.Parser ["(LOOP)"; "@LOOP"; "0;JMP"] 3 (Some "0;JMP"),
              ({[ "LOOP" := 0 ]}, 2))).
Proof.
  refine (proj1 (cursor_loop_visits_each_command first_pass_body
    (Cursor.Parser ["(LOOP)"; "@LOOP"; "0;JMP"] 3 (Some "0;JMP"))
    (SymbolTable.init, 0) 3%nat _)).
  vm_compute. lia.
Defined.

(** X6. The two loops of [main], written with the cursor of the parser,
    are the two passes: the first loop run from a new parser returns
    what [first_pass] returns, and the second loop, run after the cursor
    is put back to the start, ends normally with the state of
    [second_pass] or raises the exception [second_pass] reports. *)
Theorem passes_are_cursor_loops (cmds : list string) (st : state) :
  let p := Cursor.Parser cmds 0 None in
  let stop := Cursor.Parser cmds (length cmds) (last cmds) in
  Cursor.while_more (length cmds) first_pass_body p (SymbolTable.init, 0) =
    Some match first_pass cmds SymbolTable.init 0 with
         | Ok s => Ok (stop, s)
         | Raise e => Raise e
         end /\
  Cursor.while_more (length cmds) (fun c st => translate st c) (Cursor.rewind stop) st =
    Some match second_pass st cmds with
         | (st', None) => Ok (stop, st')
         | (_, Some e) => Raise e
         end.
Proof.
  intros p stop. split.
  - unfold p. rewrite while_more_from by lia. rewrite drop_0, for_each_first_pass.
    f_equal. destruct (first_pass cmds SymbolTable.init 0); [|done].
    unfold stop. f_equal. f_equal. f_equal. by destruct (last cmds).
  - unfold Cursor.rewind, stop. cbn [Cursor.commands].
    rewrite while_more_from by lia. rewrite drop_0, (for_each_second_pass cmds st).
    f_equal. destruct (for_each _ cmds st); [|done].
    f_equal. f_equal. f_equal. by destruct (last cmds).
Qed.

(** ** The parts of a computation command *)

Section Parts.

Lemma append_nil_r s : s +:+ EmptyString = s.
Proof. induction s as [|c s IH]; [done|]. by rewrite append_cons, IH. Qed.

Lemma append_assoc a b c : (a +:+ b) +:+ c = a +:+ (b +:+ c).
Proof. induction a as [|x a IH]; [done|]. by rewrite !append_cons, IH. Qed.

Lemma index_of_app c a b :
  index_of c (a +:+ b) =
  match index_of c a with
  | Some i => Some i
  | None => (fun i => (String.length a + i)%nat) <$> index_of c b
  end.
Proof.
  induction a as [|x a IH].
  - change (EmptyString +:+ b) with b. cbn. by destruct (index_of c b).
  - rewrite append_cons. cbn [index_of]. destruct (Ascii.eqb x c); [done|].
    rewrite IH. destruct (index_of c a); [done|]. by destruct (index_of c b).
Qed.

Lemma index_of_app_None c a b :
  index_of c (a +:+ b) = None <-> index_of c a = None /\ index_of c b = None.
Proof.
  rewrite index_of_app. destruct (index_of c a).
  - split; [done|]. by intros [? _].
  - destruct (index_of c b); cbn; [|done]. split; [done|]. by intros [_ ?].
Qed.

Lemma index_of_cons_None c x s :
  index_of c (String x s) = None <-> x <> c /\ index_of c s = None.
Proof.
  cbn. destruct (Ascii.eqb x c) eqn:E.
  - apply Ascii.eqb_eq in E. split; [done|]. by intros [? _].
  - apply Ascii.eqb_neq in E. destruct (index_of c s); cbn; [|done].
    split; [done|]. by intros [_ ?].
Qed.

Lemma str_in_absent c s :
  index_of c s = None -> Py.str_in (String c EmptyString) s = false.
Proof. intros H. rewrite str_in_chr, H. by apply bool_decide_eq_false_2; intros ?. Qed.

Lemma str_in_present c a b :
  Py.str_in (String c EmptyString) (a +:+ String c b) = true.
Proof.
  rewrite str_in_chr. apply bool_decide_eq_true_2. rewrite index_of_app.
  destruct (index_of c a); [done|]. cbn. by rewrite Ascii.eqb_refl.
Qed.

Lemma split_none c s :
  index_of c s = None -> Py.split (String c EmptyString) s = [s].
Proof. intros H. by rewrite split_chr, H. Qed.

Lemma split_at c a b :
  index_of c a = None ->
  Py.split (String c EmptyString) (a +:+ String c b)
  = a :: Py.split (String c EmptyString) b.
Proof.
  unfold Py.split. induction a as [|x a IH]; intros H.
  - change (EmptyString +:+ String c b) with (String c b).
    cbn [Py.split_from]. by rewrite prefix_chr, Ascii.eqb_refl.
  - apply index_of_cons_None in H as [Hx Ha].
    rewrite append_cons. cbn [Py.split_from]. rewrite prefix_chr.
    apply Ascii.eqb_neq in Hx. rewrite Hx. by rewrite IH.
Qed.

Lemma compose_Some_Some d c j :
  compose (Some d) c (Some j) = d +:+ String "=" (c +:+ String ";" j).
Proof. unfold compose. by rewrite append_assoc. Qed.

Lemma compose_Some_None d c : compose (Some d) c None = d +:+ String "=" c.
Proof. unfold compose. by rewrite append_assoc, append_nil_r. Qed.

Lemma compose_None_Some c j : compose None c (Some j) = c +:+ String ";" j.
Proof. reflexivity. Qed.

Lemma compose_None_None c : compose None c None = c.
Proof. unfold compose. apply append_nil_r. Qed.

Lemma app_cons_assoc a x b r : a +:+ String x (b +:+ r) = (a +:+ String x b) +:+ r.
Proof. by rewrite append_assoc. Qed.

(** The three fields the parser reads back from a command put together
    from parts that hold no separator. *)
Lemma parse_compose d c j :
  plain_opt d -> plain c -> plain_opt j ->
  Parser.dest (compose d c j) = Ok d /\
  Parser.comp (compose d c j) = Ok c /\
  Parser.jump (compose d c j) = Ok j.
Proof.
  intros Hd [Hc1 Hc2] Hj. unfold Parser.dest, Parser.comp, Parser.jump.
  destruct d as [d|], j as [j|]; cbn in Hd, Hj.
  - destruct Hd as [Hd1 Hd2], Hj as [Hj1 Hj2]. rewrite compose_Some_Some.
    rewrite str_in_present, split_at by done.
    rewrite (app_cons_assoc d "=" c (String ";" j)) at 1 2.
    rewrite str_in_present. rewrite app_cons_assoc, split_at.
    2:{ apply index_of_app_None. split; [done|]. by apply index_of_cons_None. }
    rewrite split_none. 2:{ apply index_of_app_None. split; [done|]. by apply index_of_cons_None. }
    rewrite (split_none ";" j) by done. split; [done|]. split; [|done].
    change (Py.index (Py.split ";" (c +:+ String ";" j)) 0 = Ok c).
    by rewrite split_at.
  - destruct Hd as [Hd1 Hd2]. rewrite compose_Some_None.
    assert (index_of ";" (d +:+ String "=" c) = None) as Hsemi.
    { apply index_of_app_None. split; [done|]. by apply index_of_cons_None. }
    rewrite str_in_present, (str_in_absent ";") by done.
    rewrite split_at, (split_none "=" c) by done. done.
  - destruct Hj as [Hj1 Hj2]. rewrite compose_None_Some.
    assert (index_of "=" (c +:+ String ";" j) = None) as Heq.
    { apply index_of_app_None. split; [done|]. by apply index_of_cons_None. }
    rewrite str_in_present, (str_in_absent "=") by done.
    rewrite split_at, (split_none ";" j) by done. done.
  - rewrite compose_None_None.
    rewrite (str_in_absent "="), (str_in_absent ";") by done.
    by rewrite (split_none ";") by done.
Qed.

End Parts.

(** X7. A computation command put together from a destination, a
    computation and a jump part that hold neither [=] nor [;], the
    destination followed by [=] and the jump preceded by [;] when they
    are there, is read back part by part: [dest], [comp] and [jump]
    return the three parts, an absent part as [None]. *)
Theorem parser_reads_back_parts (d : option string) (c : string) (j : option string) :
  plain_opt d -> plain c -> plain_opt j ->
  Parser.dest (compose d c j) = Ok d /\
  Parser.comp (compose d c j) = Ok c /\
  Parser.jump (compose d c j) = Ok j.
Proof. apply parse_compose. Qed.

Lemma parser_reads_back_parts_witness :
  Parser.dest "AM=D|M;JNE" = Ok (Some "AM") /\
  Parser.comp "AM=D|M;JNE" = Ok "D|M" /\
  Parser.jump "AM=D|M;JNE" = Ok (Some "JNE").
Proof.
  apply (parser_reads_back_parts (Some "AM") "D|M" (Some "JNE")); by vm_compute.
Defined.

Section Fields.

Lemma dest_total cmd :
  Parser.dest cmd =
  Ok (if Py.str_in "=" cmd then Some (before_sub "=" cmd) else None).
Proof.
  unfold Parser.dest. destruct (Py.str_in "=" cmd); [|done].
  destruct (split_before_sub "=" cmd) as [fs ->]. done.
Qed.

Lemma jump_total cmd :
  exists j, Parser.jump cmd = Ok (if Py.str_in ";" cmd then Some j else None).
Proof.
  unfold Parser.jump. rewrite str_in_chr, split_chr.
  destruct (index_of ";" cmd) as [i|]; [|by exists EmptyString].
  rewrite bool_decide_eq_true_2 by done.
  destruct (split_before_sub ";" (slice (S i) (String.length cmd) cmd)) as [fs ->].
  eexists. done.
Qed.

Lemma dest_table_entry d code :
  Code.dest_table !! d = Some code ->
  plain d /\ d <> EmptyString /\
  String.length code = 3%nat /\ Py.forallb_str is_bit code = true.
Proof.
  intros H. apply elem_of_list_to_map_2 in H.
  repeat (apply elem_of_cons in H as [[= -> ->]|H]; [by vm_compute|]).
  by apply elem_of_nil in H.
Qed.

Lemma jump_table_entry j code :
  Code.jump_table !! j = Some code ->
  plain j /\ j <> EmptyString /\
  String.length code = 3%nat /\ Py.forallb_str is_bit code = true.
Proof.
  intros H. apply elem_of_list_to_map_2 in H.
  repeat (apply elem_of_cons in H as [[= -> ->]|H]; [by vm_compute|]).
  by apply elem_of_nil in H.
Qed.

Lemma comp_table_entry c code :
  Code.comp_table !! c = Some code ->
  plain c /\
  String.length code = 7%nat /\ Py.forallb_str is_bit code = true.
Proof.
  intros H. apply elem_of_list_to_map_2 in H.
  repeat (apply elem_of_cons in H as [[= -> ->]|H]; [by vm_compute|]).
  by apply elem_of_nil in H.
Qed.

Lemma getitem_Ok table key code :
  Code.getitem table key = Ok code <-> table !! key = Some code.
Proof. unfold Code.getitem. destruct (table !! key); split; congruence. Qed.

Lemma getitem_Raise table key e :
  Code.getitem table key = Raise e -> e = KeyError key.
Proof. unfold Code.getitem. destruct (table !! key); congruence. Qed.

Lemma bits_append a b :
  Py.forallb_str is_bit (a +:+ b)
  = Py.forallb_str is_bit a && Py.forallb_str is_bit b.
Proof.
  induction a as [|x a IH]; [done|]. rewrite append_cons. cbn.
  by rewrite IH, andb_assoc.
Qed.

(** The word of a computation command, from the three fields read. *)
Lemma c_bincode_eq cmd d m j :
  Parser.dest cmd = Ok d -> Parser.comp cmd = Ok m -> Parser.jump cmd = Ok j ->
  c_bincode cmd =
  (c ← Code.comp m;
   dbits ← (if truthy d then Code.dest d else Ok "000");
   jbits ← (if truthy j then Code.jump j else Ok "000");
   Ok ("111" +:+ c +:+ dbits +:+ jbits)).
Proof.
  intros Hd Hm Hj. unfold c_bincode. rewrite Hd, Hm, Hj. cbn [mbind result_bind].
  destruct (Code.comp m) as [c|]; cbn [mbind result_bind]; [|done].
  destruct (truthy d); cbn [mbind result_bind].
  - destruct (Code.dest d) as [dbits|]; cbn [mbind result_bind]; [|done].
    destruct (truthy j); cbn [mbind result_bind].
    + destruct (Code.jump j); cbn [mbind result_bind]; [|done].
      by rewrite !append_assoc.
    + by rewrite !append_assoc.
  - destruct (truthy j); cbn [mbind result_bind].
    + destruct (Code.jump j); cbn [mbind result_bind]; [|done].
      by rewrite !append_assoc.
    + by rewrite !append_assoc.
Qed.

Lemma substring_app_take a b : String.substring 0 (String.length a) (a +:+ b) = a.
Proof.
  induction a as [|x a IH]; [by destruct b|]. rewrite append_cons. cbn. by rewrite IH.
Qed.

Lemma substring_app_skip a b n m :
  String.substring (String.length a + n) m (a +:+ b) = String.substring n m b.
Proof. induction a as [|x a IH]; [done|]. rewrite append_cons. cbn. apply IH. Qed.

Lemma field_code_truthy (table : gmap string string) (m : option string) code :
  field_code table m = Some code ->
  (forall k c, table !! k = Some c -> k <> EmptyString) ->
  (if truthy m then Code.getitem table (default "null" m) else Ok "000") = Ok code.
Proof.
  intros H Hkeys. destruct m as [[|x t]|]; cbn in *.
  - by apply Hkeys in H.
  - by apply getitem_Ok.
  - congruence.
Qed.

Lemma field_code_entry (table : gmap string string) (m : option string) code :
  field_code table m = Some code ->
  (forall k c, table !! k = Some c ->
     plain k /\ k <> EmptyString /\
     String.length c = 3%nat /\ Py.forallb_str is_bit c = true) ->
  plain_opt m /\ String.length code = 3%nat /\ Py.forallb_str is_bit code = true.
Proof.
  intros H Hentry. destruct m as [k|]; cbn in *.
  - apply Hentry in H. tauto.
  - injection H as <-. done.
Qed.

End Fields.

Lemma c_bincode_compose d c j dbits cbits jbits :
  field_code Code.dest_table d = Some dbits ->
  Code.comp_table !! c = Some cbits ->
  field_code Code.jump_table j = Some jbits ->
  c_bincode (compose d c j) = Ok ("111" +:+ cbits +:+ dbits +:+ jbits).
Proof.
  intros Hd Hc Hj.
  destruct (field_code_entry _ _ _ Hd dest_table_entry) as (Hpd & _).
  destruct (field_code_entry _ _ _ Hj jump_table_entry) as (Hpj & _).
  destruct (comp_table_entry _ _ Hc) as (Hpc & _).
  destruct (parse_compose d c j Hpd Hpc Hpj) as (Hdest & Hcomp & Hjump).
  rewrite (c_bincode_eq _ _ _ _ Hdest Hcomp Hjump).
  unfold Code.comp. rewrite (proj2 (getitem_Ok _ _ _) Hc). cbn [mbind result_bind].
  unfold Code.dest, Code.jump.
  rewrite (field_code_truthy _ _ _ Hd), (field_code_truthy _ _ _ Hj); [done|..].
  - intros k code Hk. by apply jump_table_entry in Hk as (_ & ? & _).
  - intros k code Hk. by apply dest_table_entry in Hk as (_ & ? & _).
Qed.

(** X8. For every computation mnemonic of the computation table, every
    destination that is a key of the destination table or absent, and
    every jump that is a key of the jump table or absent, the command
    written from them is translated to the three bits 111 followed by
    the seven bits of the computation, the three of the destination and
    the three of the jump, an absent part giving 000; the word has 16
    characters and the three codes are read back from it at the
    positions 3 to 9, 10 to 12 and 13 to 15. *)
Theorem c_bincode_of_table_entries
    (d : option string) (c : string) (j : option string) (dbits cbits jbits : string) :
  field_code Code.dest_table d = Some dbits ->
  Code.comp_table !! c = Some cbits ->
  field_code Code.jump_table j = Some jbits ->
  let word := "111" +:+ cbits +:+ dbits +:+ jbits in
  c_bincode (compose d c j) = Ok word /\
  String.length word = 16%nat /\
  String.substring 3 7 word = cbits /\
  String.substring 10 3 word = dbits /\
  String.substring 13 3 word = jbits.
Proof.
  intros Hd Hc Hj word.
  destruct (field_code_entry _ _ _ Hd dest_table_entry) as (Hpd & Hld & _).
  destruct (field_code_entry _ _ _ Hj jump_table_entry) as (Hpj & Hlj & _).
  destruct (comp_table_entry _ _ Hc) as (Hpc & Hlc & _).
  split.
  - by apply c_bincode_compose.
  - unfold word. split; [|split; [|split]].
    + rewrite append_cons. cbn [String.length]. rewrite !length_append.
      rewrite Hld, Hlc, Hlj. reflexivity.
    + change (String.substring 0 7 (cbits +:+ dbits +:+ jbits) = cbits).
      rewrite <- Hlc. apply substring_app_take.
    + change (String.substring (7 + 0) 3 (cbits +:+ dbits +:+ jbits) = dbits).
      rewrite <- Hlc, substring_app_skip, <- Hld. apply substring_app_take.
    + change (String.substring (7 + 3) 3 (cbits +:+ dbits +:+ jbits) = jbits).
      rewrite <- Hlc at 1. rewrite substring_app_skip.
      change 3%nat with (3 + 0)%nat at 1. rewrite <- Hld at 1.
      rewrite substring_app_skip, <- Hlj.
      rewrite <- (append_nil_r jbits) at 2. apply substring_app_take.
Qed.

Lemma c_bincode_of_table_entries_witness :
  c_bincode "MD=D+1;JGT" = Ok "1110011111011001".
Proof.
  refine (proj1 (c_bincode_of_table_entries (Some "MD") "D+1" (Some "JGT")
                   "011" "0011111" "001" _ _ _)); by vm_compute.
Defined.

Lemma c_bincode_Ok_shape (cmd word : string) :
  c_bincode cmd = Ok word ->
  String.length word = 16%nat /\
  Py.forallb_str is_bit word = true /\
  String.substring 0 3 word = "111".
Proof.
  intros H.
  destruct (jump_total cmd) as [j0 Hj]. pose proof (dest_total cmd) as Hd.
  pose proof (comp_computation_field cmd) as Hm.
  rewrite (c_bincode_eq _ _ _ _ Hd Hm Hj) in H.
  destruct (Code.comp (computation_field cmd)) as [c|] eqn:Hc;
    cbn [mbind result_bind] in H; [|done].
  apply getitem_Ok, comp_table_entry in Hc as (_ & Hlc & Hbc).
  set (d := if Py.str_in "=" cmd then Some (before_sub "=" cmd) else None) in *.
  set (j := if Py.str_in ";" cmd then Some j0 else None) in *.
  assert (forall (table : gmap string string) (m : option string)
                 (get : option string -> result string) bits,
            (forall k c, table !! k = Some c ->
               plain k /\ k <> EmptyString /\
               String.length c = 3%nat /\ Py.forallb_str is_bit c = true) ->
            (forall m, get m = Code.getitem table (default "null" m)) ->
            (if truthy m then get m else Ok "000") = Ok bits ->
            String.length bits = 3%nat /\ Py.forallb_str is_bit bits = true) as Hfield.
  { intros table m get bits Hentry Hget Hb. destruct (truthy m).
    - rewrite Hget in Hb. apply getitem_Ok, Hentry in Hb. tauto.
    - by injection Hb as <-. }
  destruct (if truthy d then Code.dest d else Ok "000") as [dbits|] eqn:Hdb;
    cbn [mbind result_bind] in H; [|done].
  destruct (if truthy j then Code.jump j else Ok "000") as [jbits|] eqn:Hjb;
    cbn [mbind result_bind] in H; [|done].
  injection H as <-.
  destruct (Hfield Code.dest_table d Code.dest dbits dest_table_entry) as [Hld Hbd]; [done..|].
  destruct (Hfield Code.jump_table j Code.jump jbits jump_table_entry) as [Hlj Hbj]; [done..|].
  split; [|split; [|apply (substring_app_take "111")]].
  - rewrite append_cons. cbn [String.length]. rewrite !length_append, Hlc, Hld, Hlj. reflexivity.
  - rewrite !bits_append, Hbc, Hbd, Hbj. done.
Qed.

(** X9. Every word the program writes for a computation command has 16
    characters, all of them binary digits, the first three being 111,
    whatever the command. *)
Theorem c_bincode_word_shape (cmd word : string) :
  c_bincode cmd = Ok word ->
  String.length word = 16%nat /\
  Py.forallb_str is_bit word = true /\
  String.substring 0 3 word = "111".
Proof. apply c_bincode_Ok_shape. Qed.

Lemma c_bincode_word_shape_witness :
  String.length "1110101010000111" = 16%nat /\
  Py.forallb_str is_bit "1110101010000111" = true /\
  String.substring 0 3 "1110101010000111" = "111".
Proof. apply (c_bincode_word_shape "0;JMP"). vm_compute. reflexivity. Defined.

(** ** Whole runs *)

Section WholeRun.

Lemma assemble_abort cmds pre c post labels n st e :
  first_pass cmds SymbolTable.init 0 = Ok (labels, n) ->
  cmds = pre ++ c :: post ->
  second_pass (State labels 16 []) pre = (st, None) ->
  translate st c = Raise e ->
  assemble cmds = (binprog st, Some e).
Proof.
  intros Hfp -> Hrun Ht. unfold assemble.
  rewrite Hfp, second_pass_app, Hrun. cbn [second_pass]. by rewrite Ht.
Qed.

Lemma length_a_bincode n : (16 <= String.length (a_bincode n))%nat.
Proof.
  rewrite a_bincode_eq. unfold Py.rjust.
  rewrite length_append, length_replicate_chr. lia.
Qed.

Lemma resolve_Ok s t r a t' r' :
  resolve s t r = Ok (a, t', r') ->
  t ⊆ t' /\ r <= r' /\ (Py.isdigit s = false -> t' !! s = Some a).
Proof.
  intros H. destruct (Py.isdigit s) eqn:Hd.
  - rewrite resolve_literal in H by done.
    destruct (Py.int s); cbn in H; [|done]. injection H as _ <- <-.
    split; [done|]. split; [lia|done].
  - destruct (t !! s) as [b|] eqn:Hs.
    + rewrite (resolve_present _ _ _ b) in H by done. injection H as <- <- <-.
      split; [done|]. split; [lia|done].
    + destruct (predefined_variable_symbols !! s) as [p|] eqn:Hp.
      * rewrite (resolve_predefined _ _ _ p) in H by done. injection H as <- <- <-.
        split; [by apply insert_subseteq|]. split; [lia|]. intros _. apply lookup_insert_eq.
      * rewrite resolve_variable in H by done. injection H as <- <- <-.
        split; [by apply insert_subseteq|]. split; [lia|]. intros _. apply lookup_insert_eq.
Qed.

Lemma resolve_Raise s t r e :
  resolve s t r = Raise e -> e = ValueError s /\ Py.isdigit s = true.
Proof.
  intros H. destruct (Py.isdigit s) eqn:Hd.
  - rewrite resolve_literal in H by done.
    destruct (Py.int s) as [a|x] eqn:Hint; cbn in H; [done|].
    injection H as <-. by apply int_Raise in Hint.
  - destruct (t !! s) as [b|] eqn:Hs.
    + by rewrite (resolve_present _ _ _ b) in H.
    + destruct (predefined_variable_symbols !! s) as [p|] eqn:Hp.
      * by rewrite (resolve_predefined _ _ _ p) in H.
      * by rewrite resolve_variable in H.
Qed.

Lemma c_bincode_Raise cmd e : c_bincode cmd = Raise e -> exists k, e = KeyError k.
Proof.
  destruct (jump_total cmd) as [j0 Hj]. pose proof (dest_total cmd) as Hd.
  pose proof (comp_computation_field cmd) as Hm.
  rewrite (c_bincode_eq _ _ _ _ Hd Hm Hj).
  generalize (if Py.str_in "=" cmd then Some (before_sub "=" cmd) else None).
  generalize (if Py.str_in ";" cmd then Some j0 else None).
  intros j d. clear.
  destruct (Code.comp _) as [c|] eqn:Hc; cbn [mbind result_bind].
  2:{ intros [= <-]. apply getitem_Raise in Hc. eauto. }
  assert (forall (get : option string -> result string) table (m : option string) x,
            (forall m, get m = Code.getitem table (default "null" m)) ->
            (if truthy m then get m else Ok "000") = Raise x ->
            exists k, x = KeyError k) as Hfield.
  { intros get table m x Hget Hx. destruct (truthy m); [|done].
    rewrite Hget in Hx. apply getitem_Raise in Hx. eauto. }
  destruct (if truthy d then Code.dest d else _) as [db|] eqn:Hdb;
    cbn [mbind result_bind].
  2:{ intros [= <-]. by apply (Hfield Code.dest Code.dest_table d). }
  destruct (if truthy j then Code.jump j else _) as [jb|] eqn:Hjb;
    cbn [mbind result_bind]; [done|].
  intros [= <-]. by apply (Hfield Code.jump Code.jump_table j).
Qed.

(** What one round of the second loop does to the state. *)
Lemma translate_Ok st c st' :
  translate st c = Ok st' ->
  symbol_table st ⊆ symbol_table st' /\
  ram_address st <= ram_address st' /\
  exists ws,
    binprog st' = binprog st ++ ws /\
    N.of_nat (length ws) = rom_count [c] /\
    Forall (fun w => (16 <= String.length w)%nat /\ Py.forallb_str is_bit w = true) ws.
Proof.
  intros H. destruct (Parser.command_type c) as [[]|] eqn:Hk.
  - destruct (command_type_A _ Hk) as [s ->]. rewrite translate_address in H.
    destruct (resolve s _ _) as [[[a t] r]|] eqn:Hr; cbn in H; [|done].
    injection H as <-. apply resolve_Ok in Hr as (Ht & Hram & _).
    split; [done|]. split; [done|]. exists [a_bincode a]. split; [done|].
    split; [done|]. constructor; [|done].
    split; [apply length_a_bincode|apply bits_a_bincode].
  - rewrite translate_computation in H by done.
    destruct (c_bincode c) as [w|] eqn:Hw; cbn in H; [|done]. injection H as <-.
    split; [done|]. split; [cbn; lia|]. exists [w]. split; [done|]. split.
    + cbn. unfold is_label. by rewrite Hk.
    + constructor; [|done]. apply c_bincode_Ok_shape in Hw as (Hl & Hb & _).
      split; [lia|done].
  - assert (is_label c = true) as Hl by by apply is_label_true.
    rewrite translate_label in H by done. injection H as <-.
    split; [done|]. split; [lia|]. exists []. split; [by rewrite app_nil_r|].
    split; [|done]. cbn. by rewrite Hl.
  - unfold translate in H. by rewrite Hk in H.
Qed.

Lemma translate_Raise st c e :
  translate st c = Raise e ->
  c = EmptyString /\ e = IndexError \/
  (exists k, e = KeyError k) \/
  (exists s, c = address_command s /\ e = ValueError s).
Proof.
  intros H. destruct (Parser.command_type c) as [[]|] eqn:Hk.
  - destruct (command_type_A _ Hk) as [s ->]. rewrite translate_address in H.
    destruct (resolve s _ _) as [[[a t] r]|] eqn:Hr; cbn in H; [done|].
    injection H as <-. apply resolve_Raise in Hr as [-> _]. right; right. eauto.
  - rewrite translate_computation in H by done.
    destruct (c_bincode c) as [w|] eqn:Hw; cbn in H; [done|]. injection H as <-.
    right; left. by eapply c_bincode_Raise.
  - rewrite translate_label in H; [done|]. by apply is_label_true.
  - left. destruct c as [|x c].
    + unfold translate in H. cbn in H. by injection H as <-.
    + destruct (command_type_total (String x c)) as [k Hk']; [done|congruence].
Qed.

Lemma second_pass_split cmds : forall st st' e,
  second_pass st cmds = (st', e) ->
  exists done_ rest,
    cmds = done_ ++ rest /\
    second_pass st done_ = (st', None) /\
    match e with
    | None => rest = []
    | Some x => exists c rest', rest = c :: rest' /\ translate st' c = Raise x
    end.
Proof.
  induction cmds as [|c cmds IH]; intros st st' e H; cbn in H.
  - injection H as <- <-. by exists [], [].
  - destruct (translate st c) as [st1|x] eqn:Ht.
    + destruct (IH _ _ _ H) as (d & r & -> & Hd & He).
      exists (c :: d), r. split; [done|]. split; [|done]. cbn. by rewrite Ht.
    + injection H as <- <-. exists [], (c :: cmds). split; [done|]. split; [done|]. eauto.
Qed.

Lemma second_pass_Ok cmds : forall st st',
  second_pass st cmds = (st', None) ->
  symbol_table st ⊆ symbol_table st' /\
  ram_address st <= ram_address st' /\
  exists ws,
    binprog st' = binprog st ++ ws /\
    N.of_nat (length ws) = rom_count cmds /\
    Forall (fun w => (16 <= String.length w)%nat /\ Py.forallb_str is_bit w = true) ws.
Proof.
  induction cmds as [|c cmds IH]; intros st st' H; cbn in H.
  - injection H as <-. split; [done|]. split; [lia|]. exists [].
    split; [by rewrite app_nil_r|]. done.
  - destruct (translate st c) as [st1|x] eqn:Ht; [|done].
    apply translate_Ok in Ht as (Ht1 & Hr1 & ws1 & Hb1 & Hn1 & Hw1).
    apply IH in H as (Ht2 & Hr2 & ws2 & Hb2 & Hn2 & Hw2).
    split; [by etrans|]. split; [lia|]. exists (ws1 ++ ws2).
    split; [by rewrite Hb2, Hb1, app_assoc|]. split.
    + rewrite length_app, Nat2N.inj_add, Hn1, Hn2.
      change (c :: cmds) with ([c] ++ cmds). by rewrite rom_count_app.
    + by apply Forall_app.
Qed.

End WholeRun.

(** X10. When the second pass reaches a computation command whose
    computation mnemonic is in its table and whose destination is not
    empty and is no key of the destination table, the lookup raises a
    [KeyError] naming the destination and the run ends there, the output
    holding the words of the commands before it. *)
Theorem unknown_destination_is_fatal
    (cmds pre post : list string) (c m cbits d : string)
    (labels : gmap string N) (n : N) (st : state) :
  first_pass cmds SymbolTable.init 0 = Ok (labels, n) ->
  cmds = pre ++ c :: post ->
  second_pass (State labels 16 []) pre = (st, None) ->
  Parser.command_type c = Ok C_COMMAND ->
  Parser.comp c = Ok m ->
  Code.comp_table !! m = Some cbits ->
  Parser.dest c = Ok (Some d) ->
  d <> EmptyString ->
  Code.dest_table !! d = None ->
  assemble cmds = (binprog st, Some (KeyError d)).
Proof.
  intros Hfp Hcmds Hrun Hk Hm Hc Hd Hne Hnone.
  apply (assemble_abort cmds pre c post labels n); [done..|].
  rewrite translate_computation by done.
  destruct (jump_total c) as [j0 Hj].
  rewrite (c_bincode_eq _ _ _ _ Hd Hm Hj).
  unfold Code.comp. rewrite (proj2 (getitem_Ok _ _ _) Hc). cbn [mbind result_bind].
  destruct d as [|x d]; [done|]. cbn [truthy].
  change (Code.dest (Some (String x d))) with (Code.getitem Code.dest_table (String x d)).
  unfold Code.getitem. by rewrite Hnone.
Qed.

Lemma unknown_destination_is_fatal_witness :
  assemble ["@1"; "X=D+1"; "@2"] = (["0000000000000001"], Some (KeyError "X")).
Proof.
  refine (unknown_destination_is_fatal ["@1"; "X=D+1"; "@2"] ["@1"] ["@2"]
            "X=D+1" "D+1" "0011111" "X" ∅ 3 (State ∅ 16 ["0000000000000001"])
            _ _ _ _ _ _ _ _ _); by vm_compute.
Defined.

(** X11. When the second pass reaches a computation command whose
    computation and destination are translated and whose jump is not
    empty and is no key of the jump table, the lookup raises a
    [KeyError] naming the jump and the run ends there, the output
    holding the words of the commands before it. *)
Theorem unknown_jump_is_fatal
    (cmds pre post : list string) (c m cbits dbits j : string) (d : option string)
    (labels : gmap string N) (n : N) (st : state) :
  first_pass cmds SymbolTable.init 0 = Ok (labels, n) ->
  cmds = pre ++ c :: post ->
  second_pass (State labels 16 []) pre = (st, None) ->
  Parser.command_type c = Ok C_COMMAND ->
  Parser.comp c = Ok m ->
  Code.comp_table !! m = Some cbits ->
  Parser.dest c = Ok d ->
  (if truthy d then Code.dest d else Ok "000") = Ok dbits ->
  Parser.jump c = Ok (Some j) ->
  j <> EmptyString ->
  Code.jump_table !! j = None ->
  assemble cmds = (binprog st, Some (KeyError j)).
Proof.
  intros Hfp Hcmds Hrun Hk Hm Hc Hd Hdb Hj Hne Hnone.
  apply (assemble_abort cmds pre c post labels n); [done..|].
  rewrite translate_computation by done.
  rewrite (c_bincode_eq _ _ _ _ Hd Hm Hj).
  unfold Code.comp. rewrite (proj2 (getitem_Ok _ _ _) Hc). cbn [mbind result_bind].
  rewrite Hdb. cbn [mbind result_bind].
  destruct j as [|x j]; [done|]. cbn [truthy].
  change (Code.jump (Some (String x j))) with (Code.getitem Code.jump_table (String x j)).
  unfold Code.getitem. by rewrite Hnone.
Qed.

Lemma unknown_jump_is_fatal_witness :
  assemble ["@1"; "D;JXX"; "@2"] = (["0000000000000001"], Some (KeyError "JXX")).
Proof.
  refine (unknown_jump_is_fatal ["@1"; "D;JXX"; "@2"] ["@1"] ["@2"]
            "D;JXX" "D" "0001100" "000" "JXX" None ∅ 3
            (State ∅ 16 ["0000000000000001"])
            _ _ _ _ _ _ _ _ _ _ _); by vm_compute.
Defined.

(** X12. Whatever the commands, every word of the output of a run is
    made of binary digits and has at least 16 characters; the output
    never has more words than there are address and computation
    commands, and has exactly that many when the run ends without an
    exception. *)
Theorem output_words (cmds : list string) :
  Forall (fun w => (16 <= String.length w)%nat /\ Py.forallb_str is_bit w = true)
    (assemble cmds).1 /\
  N.of_nat (length (assemble cmds).1) <= rom_count cmds /\
  ((assemble cmds).2 = None -> N.of_nat (length (assemble cmds).1) = rom_count cmds).
Proof.
  unfold assemble. destruct (first_pass cmds SymbolTable.init 0) as [[t n]|e].
  2:{ cbn. split; [done|]. split; [lia|done]. }
  destruct (second_pass (State t 16 []) cmds) as [st' e] eqn:Hrun. cbn [fst snd].
  apply second_pass_split in Hrun as (d & r & -> & Hd & He).
  apply second_pass_Ok in Hd as (_ & _ & ws & Hb & Hn & Hw). cbn in Hb.
  rewrite rom_count_app, Hb, Hn. split; [done|]. split; [lia|].
  intros ->. subst r. cbn. lia.
Qed.

Lemma output_words_witness :
  N.of_nat (length (assemble ["(LOOP)"; "@LOOP"; "0;JMP"]).1) = 2.
Proof.
  apply (proj2 (proj2 (output_words ["(LOOP)"; "@LOOP"; "0;JMP"]))).
  vm_compute. reflexivity.
Defined.

(** X13. On the lines of any file the only exceptions that end a run
    are a [KeyError], from one of the three code tables, and a
    [ValueError], from the conversion of the symbol of an address
    command: no run ends with an [IndexError] or a [TypeError]. *)
Theorem main_raises_key_or_value_error (lines out : list string) (e : exn) :
  main lines = (out, Some e) ->
  (exists k, e = KeyError k) \/ (exists s, e = ValueError s).
Proof.
  unfold main, assemble.
  destruct (init_nonempty lines) as (cmds & -> & Hne).
  destruct (first_pass_spec cmds SymbolTable.init 0 Hne) as (t & -> & _).
  destruct (second_pass (State t 16 []) cmds) as [st' x] eqn:Hrun.
  intros [= <- ->].
  apply second_pass_split in Hrun as (d & r & -> & _ & c & r' & -> & Ht).
  apply translate_Raise in Ht as [[-> _]|[Hkey|(s & _ & ->)]]; [|by left|by right; eauto].
  apply Forall_app in Hne as [_ Hne]. by apply Forall_cons in Hne as [? _].
Qed.

Lemma main_raises_key_or_value_error_witness :
  (exists k, KeyError "Q" = KeyError k) \/ (exists s, KeyError "Q" = ValueError s).
Proof.
  apply (main_raises_key_or_value_error ["@1"; "  D = Q // bad"; "@2"]
           ["0000000000000001"] (KeyError "Q")).
  vm_compute. reflexivity.
Defined.

(** X14. The second pass only adds: whatever the commands and however
    the pass ends, the symbol table it leaves holds every entry it
    started with, unchanged, the RAM counter has not gone down, and the
    output begins with what was written before. *)
Theorem second_pass_only_adds (st : state) (cmds : list string) :
  let st' := (second_pass st cmds).1 in
  symbol_table st ⊆ symbol_table st' /\
  ram_address st <= ram_address st' /\
  exists ws, binprog st' = binprog st ++ ws.
Proof.
  intros st'. subst st'.
  destruct (second_pass st cmds) as [st' e] eqn:Hrun. cbn [fst].
  apply second_pass_split in Hrun as (d & r & _ & Hd & _).
  apply second_pass_Ok in Hd as (Ht & Hr & ws & Hb & _). eauto.
Qed.

Section Labels.

Lemma label_address_bounds cmds : forall s r a,
  label_address cmds s r = Some a -> r <= a <= r + rom_count cmds.
Proof.
  induction cmds as [|c cmds IH]; intros s r a H; [done|].
  cbn [label_address rom_count] in *. destruct (is_label c).
  - destruct (decide (label_name c = Some s)).
    + injection H as <-. lia.
    + apply IH in H. lia.
  - apply IH in H. lia.
Qed.

Lemma label_address_declared (cmds : list string) s r a :
  label_address cmds s r = Some a -> exists c, c ∈ cmds /\ label_name c = Some s.
Proof.
  revert r. induction cmds as [|c cmds IH]; intros r H; [done|].
  cbn [label_address] in H.
  assert (forall r, label_address cmds s r = Some a ->
            exists c0, c0 ∈ c :: cmds /\ label_name c0 = Some s) as Hrest.
  { intros r' H'. destruct (IH _ H') as (c0 & Hc0 & Hn). exists c0. split; [by right|done]. }
  destruct (is_label c); [|by eapply Hrest].
  destruct (decide (label_name c = Some s)); [|by eapply Hrest].
  exists c. split; [left|done].
Qed.

Lemma drop_last_snoc s c : Py.drop_last (s +:+ String c EmptyString) = s.
Proof.
  induction s as [|x s IH]; [done|]. rewrite append_cons. cbn [Py.drop_last].
  rewrite IH. by destruct s.
Qed.

End Labels.

(** X15. After the first pass the symbol table holds exactly the names
    that label commands declare, each at an address between 0 and the
    number of address and computation commands of the program, which is
    where the ROM counter ends. *)
Theorem first_pass_table_is_the_labels (cmds : list string) (t : gmap string N) (n : N) :
  first_pass cmds SymbolTable.init 0 = Ok (t, n) ->
  n = rom_count cmds /\
  (forall s, is_Some (t !! s) <-> exists c, c ∈ cmds /\ label_name c = Some s) /\
  (forall s a, t !! s = Some a -> a <= n).
Proof.
  intros H. pose proof (first_pass_Ok _ _ _ _ _ H) as Hne.
  destruct (first_pass_spec cmds SymbolTable.init 0 Hne) as (t' & Ht' & _).
  rewrite H in Ht'. injection Ht' as _ ->. split; [done|]. split.
  - intros s. rewrite (first_pass_lookup _ _ _ s H). split.
    + intros [a Ha]. by eapply label_address_declared.
    + intros Hdecl. destruct (first_declaration cmds s Hdecl) as (i & c & Hi & Hc & Hfirst).
      rewrite (label_address_first cmds 0 i c s) by done. eauto.
  - intros s a Ha. rewrite (first_pass_lookup _ _ _ s H) in Ha.
    apply label_address_bounds in Ha. lia.
Qed.

Lemma first_pass_table_is_the_labels_witness :
  2 = rom_count ["(LOOP)"; "@LOOP"; "0;JMP"; "(END)"] /\
  (is_Some (({[ "LOOP" := 0; "END" := 2 ]} : gmap string N) !! "END") <->
   exists c, c ∈ ["(LOOP)"; "@LOOP"; "0;JMP"; "(END)"] /\ label_name c = Some "END").
Proof.
  destruct (first_pass_table_is_the_labels
              ["(LOOP)"; "@LOOP"; "0;JMP"; "(END)"] {[ "LOOP" := 0; "END" := 2 ]} 2)
    as (Hn & Hdom & _); [vm_compute; reflexivity|].
  split; [exact Hn|apply Hdom].
Defined.

(** X16. An address command that refers to a label whose name the
    program does not take for a literal emits the word of the
    instruction-memory address at the first declaration of the label and
    leaves the table and the RAM counter as they are, whether the
    reference stands before the declaration or after it. *)
Theorem label_reference_resolves
    (cmds pre post : list string) (i : nat) (lbl s : string)
    (labels : gmap string N) (n : N) (st : state) :
  first_pass cmds SymbolTable.init 0 = Ok (labels, n) ->
  cmds !! i = Some lbl ->
  label_name lbl = Some s ->
  (forall i' c', (i' < i)%nat -> cmds !! i' = Some c' -> label_name c' <> Some s) ->
  Py.isdigit s = false ->
  cmds = pre ++ address_command s :: post ->
  second_pass (State labels 16 []) pre = (st, None) ->
  translate st (address_command s)
    = Ok (State (symbol_table st) (ram_address st)
                (binprog st ++ [a_bincode (rom_count (take i cmds))])).
Proof.
  intros Hfp Hi Hname Hfirst Hd _ Hrun.
  destruct (second_pass_prefix _ _ _ Hrun) as [_ Hlab _ _].
  rewrite translate_address, (resolve_present _ _ _ (rom_count (take i cmds))); [done|done|].
  apply Hlab. rewrite (first_pass_lookup _ _ _ _ Hfp).
  by rewrite (label_address_first cmds 0 i lbl s).
Qed.

Lemma label_reference_resolves_witness :
  translate (State {[ "END" := 2 ]} 16 []) "@END"
  = Ok (State {[ "END" := 2 ]} 16 ["0000000000000010"]).
Proof.
  refine (label_reference_resolves ["@END"; "0;JMP"; "(END)"] [] ["0;JMP"; "(END)"]
            2 "(END)" "END" {[ "END" := 2 ]} 2 (State {[ "END" := 2 ]} 16 [])
            _ _ _ _ _ _ _); try by vm_compute.
  intros [|[|i']] c' Hlt Hc'; cbn in Hc'.
  - injection Hc' as <-. by vm_compute.
  - injection Hc' as <-. by vm_compute.
  - exfalso. clear -Hlt. lia.
Defined.

Lemma superscript_not_ascii s :
  has_superscript_digit s = true -> Py.forallb_str Py.is_ascii_digit s = false.
Proof.
  unfold has_superscript_digit. rewrite negb_true_iff.
  induction s as [|c t IH]; [done|]. cbn [Py.forallb_str].
  destruct (is_superscript_digit c) eqn:Hc; cbn [negb andb].
  - intros _. assert (Py.is_ascii_digit c = false) as ->; [|done].
    unfold is_superscript_digit in Hc. unfold Py.is_ascii_digit.
    destruct (N.eqb_spec (N_of_ascii c) 178) as [->|_]; [done|].
    destruct (N.eqb_spec (N_of_ascii c) 179) as [->|_]; [done|].
    destruct (N.eqb_spec (N_of_ascii c) 185) as [->|_]; done.
  - intros H. rewrite (IH H). apply andb_false_r.
Qed.

(** X17. A symbol that passes the test [isdigit] and holds one of the
    superscript digits two, three and one fails in [int]: when the
    second pass reaches an address command with such a symbol the run
    ends there with a [ValueError], the output holding the words of the
    commands before it. *)
Theorem non_ascii_digit_symbol_is_fatal
    (cmds pre post : list string) (s : string)
    (labels : gmap string N) (n : N) (st : state) :
  first_pass cmds SymbolTable.init 0 = Ok (labels, n) ->
  cmds = pre ++ address_command s :: post ->
  second_pass (State labels 16 []) pre = (st, None) ->
  Py.isdigit s = true ->
  has_superscript_digit s = true ->
  assemble cmds = (binprog st, Some (ValueError s)).
Proof.
  intros Hfp Hcmds Hrun Hd Hsup.
  apply (assemble_abort cmds pre (address_command s) post labels n); [done..|].
  rewrite translate_address, resolve_literal by done.
  unfold Py.int. by rewrite (superscript_not_ascii s Hsup).
Qed.

Lemma non_ascii_digit_symbol_is_fatal_witness :
  let s := String "1" (String (ascii_of_N 178) EmptyString) in
  assemble ["@7"; address_command s]
  = (["0000000000000111"], Some (ValueError s)).
Proof.
  intros s.
  refine (non_ascii_digit_symbol_is_fatal ["@7"; address_command s] ["@7"] [] s ∅ 2
            (State ∅ 16 ["0000000000000111"]) _ _ _ _ _); by vm_compute.
Defined.

(** X18. [symbol] reads the name back from the text of a command: all
    that follows the [@] of an address command, and what stands between
    the opening bracket of a label command and its last character,
    whatever that character is; on a command with no character it is
    an [IndexError]. *)
Theorem symbol_reads_back_name (s : string) (c : ascii) :
  Parser.symbol (String "@" s) = Ok s /\
  Parser.symbol (String "(" (s +:+ String c EmptyString)) = Ok s /\
  label_name (String "(" (s +:+ ")")) = Some s /\
  Parser.symbol EmptyString = Raise IndexError.
Proof.
  assert (forall c, Parser.symbol (String "(" (s +:+ String c EmptyString)) = Ok s) as H.
  { intros c'. unfold Parser.symbol. cbn. unfold Py.slice_1_m1. cbn [Py.slice_1].
    by rewrite drop_last_snoc. }
  split; [done|]. split; [apply H|]. split; [|done].
  apply label_name_Some. split; [done|]. apply (H ")"%char).
Qed.

(** X19. After [add_entry] the symbol is in the table, at the address
    given if it was not there before and at its old address if it was;
    every other symbol is as before; and [get_address] returns [None],
    raising nothing, exactly for the symbols that [contains] denies. *)
Theorem add_entry_then_lookup (t : gmap string N) (s k : string) (a : N) :
  SymbolTable.contains (SymbolTable.add_entry s a t) s = true /\
  SymbolTable.get_address (SymbolTable.add_entry s a t) s = Some (default a (t !! s)) /\
  (k <> s ->
     SymbolTable.contains (SymbolTable.add_entry s a t) k = SymbolTable.contains t k /\
     SymbolTable.get_address (SymbolTable.add_entry s a t) k = SymbolTable.get_address t k) /\
  (SymbolTable.contains t k = false <-> SymbolTable.get_address t k = None).
Proof.
  split; [|split; [|split]].
  - apply contains_true. rewrite add_entry_lookup. eauto.
  - rewrite get_address_lookup. apply add_entry_lookup.
  - intros Hne. rewrite !get_address_lookup, add_entry_other by done.
    split; [|done]. unfold SymbolTable.contains. by rewrite add_entry_other.
  - rewrite get_address_lookup. apply contains_false.
Qed.

Lemma add_entry_then_lookup_witness :
  SymbolTable.get_address (SymbolTable.add_entry "i" 16 {[ "LOOP" := 4 ]}) "LOOP" = Some 4.
Proof.
  refine (proj2 (proj1 (proj2 (proj2 (add_entry_then_lookup {[ "LOOP" := 4 ]} "i" "LOOP" 16))) _)).
  discriminate.
Defined.

Section WellFormed.

Lemma compose_is_computation d c j dbits cbits :
  field_code Code.dest_table d = Some dbits ->
  Code.comp_table !! c = Some cbits ->
  Parser.command_type (compose d c j) = Ok C_COMMAND.
Proof.
  intros Hd Hc. destruct d as [d|]; cbn [field_code] in Hd.
  - apply elem_of_list_to_map_2 in Hd. unfold compose.
    repeat (apply elem_of_cons in Hd as [[= -> ->]|Hd]; [reflexivity|]).
    by apply elem_of_nil in Hd.
  - apply elem_of_list_to_map_2 in Hc. unfold compose.
    repeat (apply elem_of_cons in Hc as [[= -> ->]|Hc]; [reflexivity|]).
    by apply elem_of_nil in Hc.
Qed.

Lemma well_formed_translate st c :
  well_formed c -> exists st', translate st c = Ok st'.
Proof.
  intros [Hl|[(s & -> & Hs)|(d & m & j & db & cb & jb & -> & Hd & Hm & Hj)]].
  - rewrite translate_label by done. eauto.
  - rewrite translate_address.
    destruct (resolve s (symbol_table st) (ram_address st)) as [[[a t] r]|e] eqn:Hr;
      [cbn; eauto|].
    destruct (resolve_Raise _ _ _ _ Hr) as [_ Hd].
    destruct Hs as [Hs|[Hs Hlen]]; [congruence|].
    rewrite resolve_literal in Hr by done.
    by rewrite int_literal in Hr.
  - rewrite translate_computation by by eapply compose_is_computation.
    rewrite (c_bincode_compose _ _ _ _ _ _ Hd Hm Hj). cbn. eauto.
Qed.

Lemma well_formed_nonempty c : well_formed c -> c <> EmptyString.
Proof.
  intros [Hl|[(s & -> & _)|(d & m & j & db & cb & jb & -> & Hd & Hm & _)]]; [| done |].
  - by intros ->.
  - intros H. pose proof (compose_is_computation _ _ j _ _ Hd Hm) as Hk.
    by rewrite H in Hk.
Qed.

Lemma well_formed_second_pass cmds : forall st,
  Forall well_formed cmds -> exists st', second_pass st cmds = (st', None).
Proof.
  induction cmds as [|c cmds IH]; intros st H; [by eexists|].
  apply Forall_cons in H as [Hc H]. cbn.
  destruct (well_formed_translate st c Hc) as [st1 ->]. by apply IH.
Qed.

End WellFormed.

(** X20. A program that is written as the language asks (labels,
    address commands whose symbol is a name or a literal of at most
    4300 ASCII digits, computation commands written from the mnemonics
    of the tables) is translated to the end: the run raises nothing and
    writes one word for each address or computation command. *)
Theorem well_formed_program_is_translated (cmds : list string) :
  Forall well_formed cmds ->
  exists out,
    assemble cmds = (out, None) /\
    N.of_nat (length out) = rom_count cmds.
Proof.
  intros Hwf.
  assert (Forall (fun c => c <> EmptyString) cmds) as Hne
    by (eapply Forall_impl; [done|apply well_formed_nonempty]).
  destruct (first_pass_spec cmds SymbolTable.init 0 Hne) as (t & Ht & _).
  destruct (well_formed_second_pass cmds (State t 16 []) Hwf) as [st' Hrun].
  exists (binprog st'). split.
  - unfold assemble. by rewrite Ht, Hrun.
  - apply second_pass_Ok in Hrun as (_ & _ & ws & Hb & Hn & _). cbn in Hb.
    by rewrite Hb.
Qed.

Lemma well_formed_program_is_translated_witness :
  exists out,
    assemble ["(LOOP)"; "@i"; "MD=M+1"; "@LOOP"; "0;JMP"] = (out, None) /\
    N.of_nat (length out) = 4.
Proof.
  apply (well_formed_program_is_translated ["(LOOP)"; "@i"; "MD=M+1"; "@LOOP"; "0;JMP"]).
  repeat first [apply Forall_nil_2 | apply Forall_cons_2].
  - left. reflexivity.
  - right; left. exists "i". split; [reflexivity|left; reflexivity].
  - right; right. exists (Some "MD"), "M+1", None, "011", "1110111", "000".
    by vm_compute.
  - right; left. exists "LOOP". split; [reflexivity|left; reflexivity].
  - right; right. exists None, "0", (Some "JMP"), "000", "0101010", "111".
    by vm_compute.
Defined.

(** X21. A program in which every command is a label, the program with
    no command among them, is translated without an exception and
    without a word of output. *)
Theorem labels_only_no_output (cmds : list string) :
  Forall (fun c => is_label c = true) cmds ->
  assemble cmds = ([], None).
Proof.
  intros Hl.
  assert (Forall (fun c => c <> EmptyString) cmds) as Hne.
  { eapply Forall_impl; [done|]. intros c Hc ->. done. }
  destruct (first_pass_spec cmds SymbolTable.init 0 Hne) as (t & Ht & _).
  unfold assemble. rewrite Ht.
  assert (forall st, second_pass st cmds = (st, None)) as ->; [|done].
  clear -Hl. induction Hl as [|c cmds Hc _ IH]; intros st; [done|].
  cbn. by rewrite translate_label.
Qed.

Lemma labels_only_no_output_witness :
  assemble ["(START)"; "(END)"] = ([], None).
Proof.
  apply labels_only_no_output.
  repeat first [apply Forall_nil_2 | apply Forall_cons_2]; reflexivity.
Defined.
